(** * Sequence identifier allocator: [app/utils/sequence.py]

    A verification development for the sequence allocator of the bot
    template ([generate_sequence_id], [init_sequence], [init_all_sequences])
    and for the middlewares of [app/bot/middlewares.py]: the session
    middleware that supplies the allocator's transaction
    ([DatabaseMiddleware]), [LoggingMiddleware], [ThrottlingMiddleware] and
    the chain that [setup_middlewares] builds from them.

    The coroutines are embedded as trees of database statements ([prog]):
    every [await db.execute(...)], [db.commit()] and [session.rollback()] of
    the source is one node, and the Python code between two awaits is the
    Rocq function that builds the next node.  The trees are run against a
    store with row locks, either alone ([run]) or interleaved with other
    sessions ([step]). *)

From Stdlib Require Import Floats ZArith String Ascii List Sorted Lia.
From stdpp Require Import base tactics option list strings pretty gmap fin_maps.

Open Scope string_scope.
Open Scope Z_scope.

(** ** Data model *)

(** [class SeqKey(str, Enum)] *)
Inductive SeqKey := USER_ID | ORDER_NO.

(** [SeqKey.value] *)
Definition value (k : SeqKey) : string :=
  match k with
  | USER_ID => "user_id"
  | ORDER_NO => "order_no"
  end.

(** The parameter [seq_key: str | SeqKey]. *)
Inductive seq_key_arg :=
| KeyEnum (k : SeqKey)
| KeyStr (s : string).

(** [key = seq_key.value if isinstance(seq_key, SeqKey) else seq_key] *)
Definition key_of (seq_key : seq_key_arg) : string :=
  match seq_key with
  | KeyEnum k => value k
  | KeyStr s => s
  end.

(** One row of the table [id_sequences]; [seq_key] is the key of the map
    that holds the rows. *)
Record Row := mkRow {
  current_value : Z;
  step_min : Z;
  step_max : Z;
  prefix : option string;
  description : option string;
  create_time : Z;
  update_time : Z
}.

(** The tuples of [SEQ_INIT_CONFIG]:
    [(current_value, step_min, step_max, prefix, description)]. *)
Definition config : Type := Z * Z * Z * option string * option string.

(** What [generate_sequence_id] returns: [int | str]. *)
Inductive seq_id :=
| IntId (n : Z)
| StrId (s : string).

(** Exceptions.  [ValueError] is the one raised by [generate_sequence_id];
    [EmptyRange a b] is the [ValueError] that [random.randint(a, b)] raises
    when [b < a] (its message depends on the interpreter version);
    [IntegrityError] is what the driver raises when an [INSERT] violates the
    uniqueness of [seq_key]. *)
Inductive exn :=
| ValueError (msg : string)
| EmptyRange (a b : Z)
| IntegrityError (key : string).

(** ** Library functions used by the source *)

(** [random.randint(a, b)]: [a + _randbelow(b - a + 1)], an error on an empty
    range.  [draw] is the entropy the call consumes; its residue modulo the
    width of the range is what [_randbelow] returns. *)
Definition randint (a b : Z) (draw : Z) : exn + Z :=
  if a <=? b then inr (a + draw mod (b - a + 1)) else inl (EmptyRange a b).

(** [str(n)] for an integer. *)
Definition str (n : Z) : string := pretty n.

Fixpoint zeros (n : nat) : string :=
  match n with
  | O => ""
  | S m => String "0" (zeros m)
  end.

Definition is_sign (c : ascii) : bool :=
  (Ascii.eqb c "+" || Ascii.eqb c "-")%bool.

(** [s.zfill(width)]: pad with zeros on the left up to [width] characters,
    after a leading sign when there is one. *)
Definition zfill (width : nat) (s : string) : string :=
  let n := String.length s in
  if (width <=? n)%nat then s
  else match s with
       | String c rest =>
           if is_sign c then String c (zeros (width - n) +:+ rest)
           else zeros (width - n) +:+ s
       | EmptyString => zeros width
       end.

(** [datetime.now()], the local wall clock.  Besides the fields of the
    date, [library fmt] is what the C library behind [strftime] makes, at
    this instant, of a format [fmt] that begins with a directive that is
    not expanded below ([%f], [%j], [%I], [%p], [%b], [%-d], a lone [%] at
    the end, ...): its output depends on the platform and the locale. *)
Record datetime := mkDatetime {
  year : Z; month : Z; day : Z; hour : Z; minute : Z; second : Z;
  library : string -> string
}.

Definition two_digits (n : Z) : string := zfill 2 (str n).

(** The directives of [strftime] expanded here, for the fields of a valid
    date: [%y %m %d %H %M %S %%], and [%Y] from the year 1000 on.  [None]
    for every other directive. *)
Definition directive (c : ascii) (dt : datetime) : option string :=
  if Ascii.eqb c "y" then Some (two_digits (year dt mod 100))
  else if Ascii.eqb c "m" then Some (two_digits (month dt))
  else if Ascii.eqb c "d" then Some (two_digits (day dt))
  else if Ascii.eqb c "H" then Some (two_digits (hour dt))
  else if Ascii.eqb c "M" then Some (two_digits (minute dt))
  else if Ascii.eqb c "S" then Some (two_digits (second dt))
  else if Ascii.eqb c "Y" then
    if 1000 <=? year dt then Some (str (year dt)) else None
  else if Ascii.eqb c "%" then Some "%"
  else None.

(** [dt.strftime(fmt)]: the format is read from left to right, text is
    copied and directives are expanded; from the first directive that is
    not expanded here on, the rest of the format is left to the library. *)
Fixpoint strftime (fmt : string) (dt : datetime) : string :=
  match fmt with
  | EmptyString => ""
  | String c rest =>
      if Ascii.eqb c "%" then
        match rest with
        | String d rest' =>
            match directive d dt with
            | Some s => s +:+ strftime rest' dt
            | None => library dt fmt
            end
        | EmptyString => library dt fmt
        end
      else String c (strftime rest dt)
  end.

(** The default of the parameter [datetime_format]. *)
Definition default_datetime_format : string := "%y%m%d%H%M".

(** [''.join(parts)] *)
Definition join (parts : list string) : string :=
  fold_right String.append "" parts.

(** ** Coroutines as trees of statements *)

(** The four columns read by the locking [SELECT]. *)
Definition selected : Type := Z * Z * Z * option string.

(** One constructor per statement the source sends to the session:
    - [SelectForUpdate]: [SELECT current_value, step_min, step_max, prefix
      ... WHERE seq_key = :key FOR UPDATE] followed by [fetchone()];
    - [Update]: [UPDATE id_sequences SET current_value = :new_value,
      update_time = NOW() WHERE seq_key = :key];
    - [SelectOne]: [SELECT 1 FROM id_sequences WHERE seq_key = :key]
      followed by [fetchone()];
    - [Insert]: the [INSERT INTO id_sequences ...] of [init_sequence]; the
      continuation receives the exception when the statement raises one;
    - [Commit], [Rollback]: [commit()] and [rollback()] of the session. *)
Inductive prog (A : Type) : Type :=
| Ret (a : A)
| Raise (e : exn)
| SelectForUpdate (key : string) (k : option selected -> prog A)
| Update (key : string) (new_value : Z) (k : prog A)
| SelectOne (key : string) (k : bool -> prog A)
| Insert (key : string) (c : config) (k : option exn -> prog A)
| Commit (k : prog A)
| Rollback (k : prog A).

Arguments Ret {A} a.
Arguments Raise {A} e.
Arguments SelectForUpdate {A} key k.
Arguments Update {A} key new_value k.
Arguments SelectOne {A} key k.
Arguments Insert {A} key c k.
Arguments Commit {A} k.
Arguments Rollback {A} k.

(** Sequencing: an exception raised by the first part skips the second. *)
Fixpoint bind {A B : Type} (p : prog A) (f : A -> prog B) : prog B :=
  match p with
  | Ret a => f a
  | Raise e => Raise e
  | SelectForUpdate key k => SelectForUpdate key (fun r => bind (k r) f)
  | Update key v k => Update key v (bind k f)
  | SelectOne key k => SelectOne key (fun r => bind (k r) f)
  | Insert key c k => Insert key c (fun r => bind (k r) f)
  | Commit k => Commit (bind k f)
  | Rollback k => Rollback (bind k f)
  end.

(** [try: p except Exception: h] *)
Fixpoint try_except {A : Type} (p : prog A) (h : exn -> prog A) : prog A :=
  match p with
  | Ret a => Ret a
  | Raise e => h e
  | SelectForUpdate key k => SelectForUpdate key (fun r => try_except (k r) h)
  | Update key v k => Update key v (try_except k h)
  | SelectOne key k => SelectOne key (fun r => try_except (k r) h)
  | Insert key c k => Insert key c (fun r => try_except (k r) h)
  | Commit k => Commit (try_except k h)
  | Rollback k => Rollback (try_except k h)
  end.

Notation "x <-- p ;; q" := (bind p (fun x => q))
  (at level 100, p at next level, right associativity, only parsing).
Notation "p ;;; q" := (bind p (fun _ => q))
  (at level 100, right associativity, only parsing).

(** A value or an exception computed without touching the session. *)
Definition lift {A : Type} (r : exn + A) : prog A :=
  match r with
  | inl e => Raise e
  | inr a => Ret a
  end.

(** [await db.execute(text("INSERT ..."), {...})]: the exception, if any,
    is raised where the statement is awaited. *)
Definition execute_insert (key : string) (c : config) : prog unit :=
  Insert key c (fun r => match r with Some e => Raise e | None => Ret tt end).

(** ** The source: [app/utils/sequence.py] *)

(** [SEQ_INIT_CONFIG].  The entry of [USER_ID] holds
    [random.randint(1_000_000, 1_001_000)], drawn once when the module is
    imported; [import_draw] is the entropy of that draw. *)
Definition user_id_base (import_draw : Z) : Z :=
  1000000 + import_draw mod 1001.

Definition SEQ_INIT_CONFIG (import_draw : Z) : list (SeqKey * config) :=
  [ (USER_ID, (user_id_base import_draw, 1, 20, None, Some "用户ID"));
    (ORDER_NO, (1, 1, 1, Some "ORD", Some "充值订单号")) ].

(** [SEQ_INIT_CONFIG.get(key)]: the members of [SeqKey] are strings, so a
    member and its value are the same dictionary key. *)
Fixpoint dict_get (d : list (SeqKey * config)) (key : string) : option config :=
  match d with
  | [] => None
  | (k, c) :: d' => if String.eqb (value k) key then Some c else dict_get d' key
  end.

(** Truth value of [prefix] in [if with_prefix and prefix]: [None] and the
    empty string are false. *)
Definition truthy (prefix : option string) : bool :=
  match prefix with
  | Some s => negb (String.eqb s "")
  | None => false
  end.

(** The step of one allocation (lines 44-45). *)
Definition choose_step (step_min step_max draw : Z) : exn + Z :=
  if step_min =? step_max then inr step_min else randint step_min step_max draw.

(** The formatted identifier (lines 56-62). *)
Definition format_id (with_prefix with_datetime : bool) (datetime_format : string)
    (now : datetime) (prefix : option string) (new_value : Z) : string :=
  let parts : list string := [] in
  let parts :=
    if (with_prefix && truthy prefix)%bool
    then (parts ++ [default "" prefix])%list else parts in
  let parts :=
    if with_datetime
    then (parts ++ [strftime datetime_format now])%list else parts in
  let parts := (parts ++ [zfill 6 (str new_value)])%list in
  join parts.

(** [generate_sequence_id(db, seq_key, *, with_prefix, with_datetime,
    datetime_format)].  [draw] is the entropy of the call to
    [random.randint], [now] is what [datetime.now()] returns. *)
Definition generate_sequence_id (draw : Z) (now : datetime)
    (seq_key : seq_key_arg)
    (with_prefix with_datetime : bool) (datetime_format : string) : prog seq_id :=
  let key := key_of seq_key in
  SelectForUpdate key (fun row =>
    match row with
    | None => Raise (ValueError ("Sequence '" +:+ key +:+ "' not found"))
    | Some (current_value, step_min, step_max, prefix) =>
        step <-- lift (choose_step step_min step_max draw);;
        let new_value := current_value + step in
        Update key new_value
          (if (negb with_prefix && negb with_datetime)%bool
           then Ret (IntId new_value)
           else Ret (StrId (format_id with_prefix with_datetime datetime_format
                              now prefix new_value)))
    end).

(** [init_sequence(db, seq_key, *, current_value, step_min, step_max, prefix,
    description)]; [defaults] are the five keyword arguments. *)
Definition init_sequence (import_draw : Z) (seq_key : seq_key_arg)
    (defaults : config) : prog unit :=
  let key := key_of seq_key in
  SelectOne key (fun found =>
    if found then Ret tt
    else
      let values :=
        match dict_get (SEQ_INIT_CONFIG import_draw) key with
        | Some config => config
        | None => defaults
        end in
      execute_insert key values;;;
      Commit (Ret tt)).

(** The defaults of the keyword arguments of [init_sequence]. *)
Definition init_defaults : config := (1000000, 1, 1, None, None).

(** [init_all_sequences(db)] *)
Definition init_all_sequences (import_draw : Z) : prog unit :=
  fold_right
    (fun '(seq_key, _) rest =>
       init_sequence import_draw (KeyEnum seq_key) init_defaults;;; rest)
    (Ret tt) (SEQ_INIT_CONFIG import_draw).

(** ** The source: [DatabaseMiddleware.__call__]

    [data_db] says that [data.get("db")] is not [None] (webhook mode: the
    caller brought its session) and [session_factory] that
    [async_session_factory] is not [None]; in both other cases the handler
    is called as it is.  In polling mode
    ([async with async_session_factory() as session]) the handler runs in a
    session of its own, committed when it returns and rolled back when it
    raises. *)
Definition DatabaseMiddleware {A : Type} (data_db session_factory : bool)
    (handler : prog A) : prog A :=
  if data_db then handler
  else if negb session_factory then handler
  else
    try_except
      (result <-- handler;; Commit (Ret result))
      (fun e => Rollback (Raise e)).

(** ** The database: committed rows, row locks, sessions *)

(** The table [id_sequences] as other sessions see it, the row locks held by
    open transactions (key to session id) and the clock behind [NOW()]. *)
Record Store := mkStore {
  rows : gmap string Row;
  locks : gmap string nat;
  db_now : Z
}.

(** An [AsyncSession]: the rows written by its open transaction and how
    often it was committed and rolled back. *)
Record Session := mkSession {
  sid : nat;
  writes : gmap string Row;
  commits : nat;
  rollbacks : nat
}.

Definition new_session (i : nat) : Session := mkSession i ∅ 0 0.

(** What a session reads: its own writes over the committed rows. *)
Definition view (sess : Session) (st : Store) : gmap string Row :=
  writes sess ∪ rows st.

(** The row of [key] is not locked by another session. *)
Definition available (sess : Session) (st : Store) (key : string) : bool :=
  match locks st !! key with
  | Some owner => Nat.eqb owner (sid sess)
  | None => true
  end.

Definition acquire (sess : Session) (st : Store) (key : string) : Store :=
  mkStore (rows st) (<[key := sid sess]> (locks st)) (db_now st).

Definition release (sess : Session) (l : gmap string nat) : gmap string nat :=
  filter (fun kv => kv.2 ≠ sid sess) l.

Definition set_value (row : Row) (new_value now : Z) : Row :=
  mkRow new_value (step_min row) (step_max row) (prefix row)
        (description row) (create_time row) now.

Definition row_of_config (c : config) (now : Z) : Row :=
  let '(cv, smin, smax, pre, desc) := c in mkRow cv smin smax pre desc now now.

Definition columns (row : Row) : selected :=
  (current_value row, step_min row, step_max row, prefix row).

(** Each statement; [None] means that the session has to wait for a lock.
    A session waits only for a row it can see, or for a key that another
    open transaction is inserting: a locking read or an update of a key
    without a visible row finds nothing and locks nothing, and an insert of
    a key with a visible row is rejected at once. *)
Definition select_for_update (key : string) (sess : Session) (st : Store)
    : option (option selected * Store) :=
  match view sess st !! key with
  | Some row =>
      if available sess st key
      then Some (Some (columns row), acquire sess st key)
      else None
  | None => Some (None, st)
  end.

Definition update_row (key : string) (new_value : Z) (sess : Session) (st : Store)
    : option (Session * Store) :=
  match view sess st !! key with
  | Some row =>
      if available sess st key
      then Some (mkSession (sid sess)
                   (<[key := set_value row new_value (db_now st)]> (writes sess))
                   (commits sess) (rollbacks sess),
                 acquire sess st key)
      else None
  | None => Some (sess, st)
  end.

Definition select_one (key : string) (sess : Session) (st : Store) : bool :=
  bool_decide (is_Some (view sess st !! key)).

Definition insert_row (key : string) (c : config) (sess : Session) (st : Store)
    : option (option exn * Session * Store) :=
  match view sess st !! key with
  | Some _ => Some (Some (IntegrityError key), sess, st)
  | None =>
      if available sess st key
      then Some (None,
                 mkSession (sid sess)
                   (<[key := row_of_config c (db_now st)]> (writes sess))
                   (commits sess) (rollbacks sess),
                 acquire sess st key)
      else None
  end.

Definition commit (sess : Session) (st : Store) : Session * Store :=
  (mkSession (sid sess) ∅ (S (commits sess)) (rollbacks sess),
   mkStore (view sess st) (release sess (locks st)) (db_now st)).

Definition rollback (sess : Session) (st : Store) : Session * Store :=
  (mkSession (sid sess) ∅ (commits sess) (S (rollbacks sess)),
   mkStore (rows st) (release sess (locks st)) (db_now st)).

(** One statement of a coroutine. *)
Definition exec {A : Type} (p : prog A) (sess : Session) (st : Store)
    : option (prog A * Session * Store) :=
  match p with
  | Ret _ | Raise _ => None
  | SelectForUpdate key k =>
      '(r, st') ← select_for_update key sess st; Some (k r, sess, st')
  | Update key v k =>
      '(sess', st') ← update_row key v sess st; Some (k, sess', st')
  | SelectOne key k => Some (k (select_one key sess st), sess, st)
  | Insert key c k =>
      '(r, sess', st') ← insert_row key c sess st; Some (k r, sess', st')
  | Commit k => let '(sess', st') := commit sess st in Some (k, sess', st')
  | Rollback k => let '(sess', st') := rollback sess st in Some (k, sess', st')
  end.

(** How a coroutine ends when nothing else touches the database. *)
Inductive outcome (A : Type) : Type :=
| Returned (a : A) (sess : Session) (st : Store)
| Raised (e : exn) (sess : Session) (st : Store)
| Blocked (sess : Session) (st : Store).

Arguments Returned {A} a sess st.
Arguments Raised {A} e sess st.
Arguments Blocked {A} sess st.

Fixpoint run {A : Type} (p : prog A) (sess : Session) (st : Store) : outcome A :=
  match p with
  | Ret a => Returned a sess st
  | Raise e => Raised e sess st
  | SelectForUpdate key k =>
      match select_for_update key sess st with
      | Some (r, st') => run (k r) sess st'
      | None => Blocked sess st
      end
  | Update key v k =>
      match update_row key v sess st with
      | Some (sess', st') => run k sess' st'
      | None => Blocked sess st
      end
  | SelectOne key k => run (k (select_one key sess st)) sess st
  | Insert key c k =>
      match insert_row key c sess st with
      | Some (r, sess', st') => run (k r) sess' st'
      | None => Blocked sess st
      end
  | Commit k => let '(sess', st') := commit sess st in run k sess' st'
  | Rollback k => let '(sess', st') := rollback sess st in run k sess' st'
  end.

(** Concurrent callers: a pool of coroutines, each with a session of its
    own, over one store.  A step runs one statement of one coroutine. *)
Definition thread (A : Type) : Type := prog A * Session.

Inductive step {A : Type} : Store * list (thread A) -> Store * list (thread A) -> Prop :=
| step_thread st pool i p sess p' sess' st' :
    pool !! i = Some (p, sess) ->
    exec p sess st = Some (p', sess', st') ->
    step (st, pool) (st', <[i := (p', sess')]> pool).

Definition spawn {A : Type} (ps : list (prog A)) : list (thread A) :=
  imap (fun i p => (p, new_session i)) ps.

(** A schedule names the coroutine that runs at each step. *)
Fixpoint schedule {A : Type} (order : list nat) (st : Store) (pool : list (thread A))
    : option (Store * list (thread A)) :=
  match order with
  | [] => Some (st, pool)
  | i :: order' =>
      '(p, sess) ← pool !! i;
      '(p', sess', st') ← exec p sess st;
      schedule order' st' (<[i := (p', sess')]> pool)
  end.

(** ** Callers *)

(** The arguments of one call of [generate_sequence_id], with the entropy
    and the clock reading the call consumes. *)
Record call := mkCall {
  c_draw : Z;
  c_now : datetime;
  c_key : seq_key_arg;
  c_with_prefix : bool;
  c_with_datetime : bool;
  c_format : string
}.

Definition allocate (c : call) : prog seq_id :=
  generate_sequence_id (c_draw c) (c_now c) (c_key c)
    (c_with_prefix c) (c_with_datetime c) (c_format c).


(** What a call returns for the number [new_value] (lines 53-62). *)
Definition render (c : call) (prefix : option string) (new_value : Z) : seq_id :=
  if (negb (c_with_prefix c) && negb (c_with_datetime c))%bool
  then IntId new_value
  else StrId (format_id (c_with_prefix c) (c_with_datetime c) (c_format c)
                (c_now c) prefix new_value).

(** ** The source: [app/bot/middlewares.py], events and the logger *)

(** The parts of aiogram's [User], [Message], [CallbackQuery] and [Update]
    that the middlewares read.  An object is true when it is not [None]. *)
Module User.
Record t := mk { id : Z; username : option string }.
End User.

Module Message.
Record t := mk { from_user : option User.t }.
End Message.

Module CallbackQuery.
Record t := mk { from_user : option User.t }.
End CallbackQuery.

(** [event: TelegramObject]; [isinstance(event, Update)] holds for the first
    constructor only. *)
Module Telegram.
Inductive TelegramObject :=
| Update (message : option Message.t) (callback_query : option CallbackQuery.t)
| OtherObject.
End Telegram.

Abbreviation TelegramObject := Telegram.TelegramObject.

(** What [logger.debug] and [logger.error] receive. *)
Inductive level := DEBUG | ERROR.

Definition log_record : Type := level * string.

(** [str(x)] inside an f-string, for an optional string: [None] prints as
    "None". *)
Definition str_optional (s : option string) : string := default "None" s.

(** The sender both middlewares look for (lines 52-56 and 80-84): the one of
    the message when there is a message with a sender, else the one of the
    callback query. *)
Definition update_user (event : TelegramObject) : option User.t :=
  match event with
  | Telegram.Update message callback_query =>
      match message ≫= Message.from_user with
      | Some user => Some user
      | None => callback_query ≫= CallbackQuery.from_user
      end
  | Telegram.OtherObject => None
  end.

(** The state of a [ThrottlingMiddleware]: [self.rate_limit] and
    [self._user_last_time], with [time.time()] as binary64 floats. *)
Record Throttling := mkThrottling {
  rate_limit : float;
  _user_last_time : gmap Z float
}.

(** [ThrottlingMiddleware.__init__(self, rate_limit=0.5)] *)
Definition ThrottlingMiddleware_init (rate_limit : float) : Throttling :=
  mkThrottling rate_limit ∅.

(** The handler a middleware receives: calling it may change the
    throttling table of the dispatcher and may log, and it yields the
    coroutine of database statements.  A middleware that does not call its
    handler causes none of that. *)
Definition chain (A : Type) : Type :=
  Throttling -> Throttling * list log_record * prog A.

(** The handler at the end of the chain. *)
Definition final {A : Type} (handler : prog A) : chain A :=
  fun self => (self, [], handler).

(** [LoggingMiddleware.__call__(self, handler, event, data)] *)
Definition LoggingMiddleware {A : Type} (handler : chain A)
    (event : TelegramObject) : chain A :=
  fun self =>
    let log :=
      match update_user event with
      | Some user =>
          [(DEBUG, "Update from user " +:+ str (User.id user) +:+ " (@"
                   +:+ str_optional (User.username user) +:+ ")")]
      | None => []
      end in
    let '(self', logs, p) := handler self in
    (self', log ++ logs, p)%list.

(** [if user_id:] an identifier that is [None] or 0 is false. *)
Definition user_id_of (event : TelegramObject) : option Z :=
  match User.id <$> update_user event with
  | Some uid => if uid =? 0 then None else Some uid
  | None => None
  end.

(** [now - last_time < self.rate_limit], with
    [last_time = self._user_last_time.get(user_id, 0)]. *)
Definition too_soon (self : Throttling) (now : float) (uid : Z) : bool :=
  let last_time := default 0%float (_user_last_time self !! uid) in
  PrimFloat.ltb (PrimFloat.sub now last_time) (rate_limit self).

(** [ThrottlingMiddleware.__call__(self, handler, event, data)]; [now] is
    what [time.time()] returns and [none] is Python's [None], the result of
    a throttled event. *)
Definition ThrottlingMiddleware {A : Type} (none : A) (now : float)
    (handler : chain A) (event : TelegramObject) : chain A :=
  fun self =>
    match user_id_of event with
    | Some user_id =>
        if too_soon self now user_id then
          (self, [(DEBUG, "Throttled user " +:+ str user_id)], Ret none)
        else
          handler (mkThrottling (rate_limit self)
                     (<[user_id := now]> (_user_last_time self)))
    | None => handler self
    end.

(** [DatabaseMiddleware.__call__] as a link of the chain: the coroutine is
    the one of [DatabaseMiddleware]; [logger.error] is called when there is
    neither a session in [data] nor a session factory. *)
Definition DatabaseMiddleware_call {A : Type} (data_db session_factory : bool)
    (handler : chain A) : chain A :=
  fun self =>
    let log :=
      if (negb data_db && negb session_factory)%bool
      then [(ERROR, "Database not initialized")] else [] in
    let '(self', logs, p) := handler self in
    (self', log ++ logs, DatabaseMiddleware data_db session_factory p)%list.

(** The middlewares registered on [dp.update]. *)
Inductive middleware := Logging | Throttle | Database.

(** A [Dispatcher], as far as [setup_middlewares] touches it: the
    middlewares of [dp.update] in the order of registration and the state
    of the throttling middleware among them. *)
Record Dispatcher := mkDispatcher {
  update_middlewares : list middleware;
  throttling : Throttling
}.

(** [setup_middlewares(dp)] *)
Definition setup_middlewares (dp : Dispatcher) : Dispatcher :=
  mkDispatcher
    (update_middlewares dp ++ [Logging; Throttle; Database])
    (ThrottlingMiddleware_init 0.5).

(** What an update meets on its way: the reading of [time.time()], whether
    [data] holds a session and whether a session factory exists. *)
Record context := mkContext {
  ctx_now : float;
  ctx_data_db : bool;
  ctx_session_factory : bool
}.

(** aiogram calls the middlewares in the order of registration, each with
    the rest of the chain as its handler. *)
Fixpoint wrap_middlewares {A : Type} (none : A) (ctx : context)
    (middlewares : list middleware) (handler : chain A)
    (event : TelegramObject) : chain A :=
  match middlewares with
  | [] => handler
  | m :: rest =>
      let next := wrap_middlewares none ctx rest handler event in
      match m with
      | Logging => LoggingMiddleware next event
      | Throttle => ThrottlingMiddleware none (ctx_now ctx) next event
      | Database =>
          DatabaseMiddleware_call (ctx_data_db ctx) (ctx_session_factory ctx) next
      end
  end.

(** One update through the dispatcher: the new state of the dispatcher, the
    log and the coroutine to run. *)
Definition feed_update {A : Type} (none : A) (ctx : context) (dp : Dispatcher)
    (handler : prog A) (event : TelegramObject)
    : Dispatcher * list log_record * prog A :=
  let '(self', logs, p) :=
    wrap_middlewares none ctx (update_middlewares dp) (final handler) event
      (throttling dp) in
  (mkDispatcher (update_middlewares dp) self', logs, p).

(** Requests that allocate one identifier each, one transaction after the
    other. *)
Fixpoint requests (calls : list call) : prog (list seq_id) :=
  match calls with
  | [] => Ret []
  | c :: calls' =>
      id <-- DatabaseMiddleware false true (allocate c);;
      ids <-- requests calls';;
      Ret (id :: ids)
  end.

(** The throttling state after an event of [user_id] has passed at [now]
    ([self._user_last_time[user_id] = now]). *)
Definition recorded (self : Throttling) (user_id : Z) (now : float) : Throttling :=
  mkThrottling (rate_limit self) (<[user_id := now]> (_user_last_time self)).

(** The two records the middlewares log for the sender [user]. *)
Definition update_record (user : User.t) : log_record :=
  (DEBUG, "Update from user " +:+ str (User.id user) +:+ " (@"
          +:+ str_optional (User.username user) +:+ ")").

Definition throttled_record (user_id : Z) : log_record :=
  (DEBUG, "Throttled user " +:+ str user_id).

(** A message sent by user 42. *)
Definition sample_user : User.t := User.mk 42 (Some "alice").

Definition sample_update : TelegramObject :=
  Telegram.Update (Some (Message.mk (Some sample_user))) None.

Definition sample_dispatcher : Dispatcher :=
  setup_middlewares (mkDispatcher [] (ThrottlingMiddleware_init 0)).

(** A row whose bounds are the wrong way round. *)
Definition broken_row : Row := mkRow 10 5 1 None None 0 0.

Definition broken_store : Store := mkStore (<["broken" := broken_row]> ∅) ∅ 0.

(** ** Vocabulary of the properties *)

(** The invariant of a row: [1 <= step_min <= step_max]. *)
Definition well_formed (row : Row) : Prop :=
  1 <= step_min row <= step_max row.

(** The key every call of a list is about. *)
Definition on_key (key : string) (calls : list call) : Prop :=
  Forall (fun c => key_of (c_key c) = key) calls.

(** A coroutine that holds the row lock: it has read the row and has not
    yet ended its transaction. *)
Definition in_critical_section {A : Type} (p : prog A) : bool :=
  match p with
  | Update _ _ _ | Commit _ => true
  | _ => false
  end.

(** The session and the store after a successful allocation of
    [new_value] on [key]. *)
Definition written (key : string) (row : Row) (new_value : Z)
    (sess : Session) (st : Store) : Session :=
  mkSession (sid sess)
    (<[key := set_value row new_value (db_now st)]> (writes sess))
    (commits sess) (rollbacks sess).

(** The values a counter takes when the steps [steps] are added to [cv] one
    after the other. *)
Fixpoint running (cv : Z) (steps : list Z) : list Z :=
  match steps with
  | [] => []
  | n :: steps' => (cv + n) :: running (cv + n) steps'
  end.

(** The values [init_sequence] inserts for [key] (lines 77-79). *)
Definition effective (import_draw : Z) (key : string) (defaults : config) : config :=
  match dict_get (SEQ_INIT_CONFIG import_draw) key with
  | Some config => config
  | None => defaults
  end.

(** The session and the store after [init_sequence] has inserted the row of
    [key] and committed. *)
Definition initialized (key : string) (c : config) (sess : Session) (st : Store)
    : Session * Store :=
  (mkSession (sid sess) ∅ (S (commits sess)) (rollbacks sess),
   mkStore (<[key := row_of_config c (db_now st)]> (view sess st))
           (release sess (<[key := sid sess]> (locks st)))
           (db_now st)).

(** Where a concurrent caller stands: it has not started, it holds the lock
    and is about to write [nv], it has written [nv], or it has committed
    [nv] and returned. *)
Inductive phase :=
| Idle
| Locked (nv : Z)
| Written (nv : Z)
| Done (nv : Z).

(** The handler of one concurrent caller: one allocation in a session of
    its own (polling mode). *)
Definition caller (c : call) : prog seq_id :=
  DatabaseMiddleware false true (allocate c).

(** What each phase says about the coroutine, its session and the store. *)
Definition thread_inv (key : string) (pre : option string) (st : Store)
    (i : nat) (c : call) (ph : phase) (t : thread seq_id) : Prop :=
  sid t.2 = i /\
  match ph with
  | Idle =>
      t.1 = caller c /\ writes t.2 = ∅ /\ locks st !! key <> Some i
  | Locked nv =>
      t.1 = Update key nv (Commit (Ret (render c pre nv))) /\
      writes t.2 = ∅ /\ locks st !! key = Some i /\
      exists row n,
        rows st !! key = Some row /\
        choose_step (step_min row) (step_max row) (c_draw c) = inr n /\
        nv = current_value row + n
  | Written nv =>
      t.1 = Commit (Ret (render c pre nv)) /\
      locks st !! key = Some i /\
      exists row,
        rows st !! key = Some row /\ current_value row < nv /\
        writes t.2 = {[key := set_value row nv (db_now st)]}
  | Done nv =>
      t.1 = Ret (render c pre nv) /\
      writes t.2 = ∅ /\ locks st !! key <> Some i /\
      exists row, rows st !! key = Some row /\ nv <= current_value row
  end.

(** The invariant of a pool of callers of one key: the row keeps its step
    bounds and prefix, every caller is in some phase, and no two callers
    have committed the same value. *)
Definition pool_inv (key : string) (smin smax : Z) (pre : option string)
    (calls : list call) (phs : nat -> phase) (st : Store)
    (pool : list (thread seq_id)) : Prop :=
  (exists row, rows st !! key = Some row /\ step_min row = smin /\
               step_max row = smax /\ prefix row = pre) /\
  length pool = length calls /\
  (forall i c t, calls !! i = Some c -> pool !! i = Some t ->
     thread_inv key pre st i c (phs i) t) /\
  (forall i j nv nw, (i < length calls)%nat -> (j < length calls)%nat ->
     i <> j -> phs i = Done nv -> phs j = Done nw -> nv <> nw).

(** The phases after caller [i] has moved to phase [ph]. *)
Definition advance (phs : nat -> phase) (i : nat) (ph : phase) : nat -> phase :=
  fun j => if decide (j = i) then ph else phs j.

(** One statement takes a caller from a phase to the next one. *)
Definition follows (ph ph' : phase) : Prop :=
  match ph, ph' with
  | Idle, Locked _ => True
  | Locked nv, Written nw => nv = nw
  | Written nv, Done nw => nv = nw
  | _, _ => False
  end.

(** Who holds the lock of the key once caller [i] is in phase [ph]. *)
Definition holder (i : nat) (ph : phase) : option nat :=
  match ph with
  | Idle | Done _ => None
  | Locked _ | Written _ => Some i
  end.

Definition is_done (ph : phase) : Prop := exists nv, ph = Done nv.

(** The statements a caller in phase [ph] still has to run, and their
    number over the first [n] callers. *)
Definition rank (ph : phase) : nat :=
  match ph with
  | Idle => 3
  | Locked _ => 2
  | Written _ => 1
  | Done _ => 0
  end.

Fixpoint remaining (phs : nat -> phase) (n : nat) : nat :=
  match n with
  | O => O
  | S m => (remaining phs m + rank (phs m))%nat
  end.

(** The lock of the key is free or held by one of the [n] callers. *)
Definition lock_inv (key : string) (n : nat) (st : Store) : Prop :=
  locks st !! key = None \/
  exists i, (i < n)%nat /\ locks st !! key = Some i.

(** The value a caller in phase [ph] has allocated, if any. *)
Definition allocated (ph : phase) : Z :=
  match ph with
  | Idle => 0
  | Locked nv | Written nv | Done nv => nv
  end.

(** A numeral without sign and without leading zeros. *)
Definition plain (s : string) : Prop :=
  s = "0" \/
  exists c rest, s = String c rest /\ c <> "0"%char /\ is_sign c = false.

(** Two calls that format their result in the same way. *)
Definition same_format (c c' : call) : Prop :=
  c_with_prefix c = c_with_prefix c' /\
  c_with_datetime c = c_with_datetime c' /\
  c_format c = c_format c' /\
  c_now c = c_now c'.

(** A call that asks for a formatted identifier, and the text such a call
    puts in front of the number: prefix and timestamp. *)
Definition formatted (c : call) : bool :=
  (c_with_prefix c || c_with_datetime c)%bool.

Definition decoration (c : call) (prefix : option string) : string :=
  (if (c_with_prefix c && truthy prefix)%bool then default "" prefix else "")
  +:+ (if c_with_datetime c then strftime (c_format c) (c_now c) else "").

(** ** Sample data *)

(** 23 December 2023, 15:30:00, on a platform that copies the directives
    it does not know. *)
Definition sample_clock : datetime :=
  mkDatetime 2023 12 23 15 30 0 (fun fmt => fmt).

Definition order_row : Row :=
  mkRow 0 1 1 (Some "ORD") (Some "充值订单号") 0 0.

Definition user_row : Row :=
  mkRow 1000000 1 20 None (Some "用户ID") 0 0.

Definition sample_store : Store :=
  mkStore (<["order_no" := order_row]> (<["user_id" := user_row]> ∅)) ∅ 0.

Definition empty_store : Store := mkStore ∅ ∅ 0.

(** A row with a step of zero, and two callers of it. *)
Definition stuck_row : Row := mkRow 10 0 0 None None 0 0.

Definition stuck_store : Store := mkStore (<["stuck" := stuck_row]> ∅) ∅ 0.

Definition stuck_call : call :=
  mkCall 0 sample_clock (KeyStr "stuck") false false default_datetime_format.

(** A row with steps from 1 to 1000000 and no prefix, a caller that asks
    for the timestamp with the format "1" and draws the step 1, and a
    caller that asks for the prefix and draws the step 1000000. *)
Definition wide_row : Row := mkRow 1 1 1000000 None None 0 0.

Definition wide_store : Store := mkStore (<["wide" := wide_row]> ∅) ∅ 0.

Definition wide_call_datetime : call :=
  mkCall 0 sample_clock (KeyStr "wide") false true "1".

Definition wide_call_prefix : call :=
  mkCall 999999 sample_clock (KeyStr "wide") true false
    default_datetime_format.

(** A counter that has passed six digits. *)
Definition big_row : Row := mkRow 1234566 1 1 None None 0 0.

Definition big_store : Store := mkStore (<["big" := big_row]> ∅) ∅ 0.

(** [generate_sequence_id(db, SeqKey.USER_ID)] *)
Definition user_call (draw : Z) : call :=
  mkCall draw sample_clock (KeyEnum USER_ID) false false default_datetime_format.

(** [generate_sequence_id(db, SeqKey.ORDER_NO, with_prefix=True,
    with_datetime=True)] *)
Definition order_call : call :=
  mkCall 0 sample_clock (KeyEnum ORDER_NO) true true default_datetime_format.

(** Two initializers of the same key, each in a session of its own. *)
Definition racing_initializers : list (prog unit) :=
  [ init_sequence 0 (KeyEnum ORDER_NO) init_defaults;
    init_sequence 0 (KeyEnum ORDER_NO) init_defaults ].

(** * Properties *)

(** ** Library functions *)

Lemma randint_range a b draw n :
  randint a b draw = inr n -> a <= n <= b.
Proof.
  unfold randint. destruct (a <=? b) eqn:Hab; [|discriminate].
  intros [= <-]. apply Z.leb_le in Hab.
  pose proof (Z.mod_pos_bound draw (b - a + 1)). lia.
Qed.

Lemma randint_total a b draw :
  a <= b -> exists n, randint a b draw = inr n.
Proof.
  intros Hab. unfold randint.
  destruct (a <=? b) eqn:E; [eauto|]. apply Z.leb_gt in E. lia.
Qed.

Lemma randint_residue a b draw t :
  a <= t <= b ->
  randint a b draw = inr t <-> draw mod (b - a + 1) = t - a.
Proof.
  intros Ht. unfold randint.
  destruct (a <=? b) eqn:E; [|apply Z.leb_gt in E; lia].
  split; [intros [= H]; lia | intros H; f_equal; lia].
Qed.

Lemma choose_step_range smin smax draw n :
  choose_step smin smax draw = inr n -> smin <= n <= smax.
Proof.
  unfold choose_step. destruct (smin =? smax) eqn:E.
  - apply Z.eqb_eq in E. intros [= <-]. lia.
  - apply randint_range.
Qed.

Lemma choose_step_total smin smax draw :
  smin <= smax -> exists n, choose_step smin smax draw = inr n.
Proof.
  intros H. unfold choose_step.
  destruct (smin =? smax); [eauto | by apply randint_total].
Qed.




Lemma append_empty_r (s : string) : s +:+ "" = s.
Proof. induction s as [|c s IH]; [done|]. change (String c (s +:+ "") = String c s). by f_equal. Qed.

Lemma zfill_unsigned width s :
  (forall c rest, s = String c rest -> is_sign c = false) ->
  zfill width s = zeros (width - String.length s) +:+ s.
Proof.
  intros Hs. unfold zfill. destruct (width <=? String.length s)%nat eqn:E.
  - apply Nat.leb_le in E. replace (width - String.length s)%nat with O by lia.
    reflexivity.
  - destruct s as [|c rest].
    + simpl. by rewrite Nat.sub_0_r, append_empty_r.
    + by rewrite (Hs c rest eq_refl).
Qed.

(** ** Sessions and locks *)

Lemma view_acquire sess st key : view sess (acquire sess st key) = view sess st.
Proof. reflexivity. Qed.

Lemma available_acquire sess st key :
  available sess (acquire sess st key) key = true.
Proof.
  unfold available, acquire; simpl. rewrite lookup_insert_eq.
  apply Nat.eqb_refl.
Qed.


Lemma acquire_twice sess st key :
  acquire sess (acquire sess st key) key = acquire sess st key.
Proof. unfold acquire; simpl. by rewrite insert_insert_eq. Qed.

Lemma view_written key row nv sess st :
  view (written key row nv sess st) (acquire sess st key) !! key
  = Some (set_value row nv (db_now st)).
Proof.
  unfold view, written; simpl.
  apply lookup_union_Some_l, lookup_insert_eq.
Qed.

(** ** One allocation, run alone *)

(** Every way a call of [generate_sequence_id] can end. *)
Lemma run_allocate c sess st :
  run (allocate c) sess st =
  let key := key_of (c_key c) in
  match view sess st !! key with
  | None => Raised (ValueError ("Sequence '" +:+ key +:+ "' not found")) sess st
  | Some row =>
      if available sess st key then
        match choose_step (step_min row) (step_max row) (c_draw c) with
        | inl e => Raised e sess (acquire sess st key)
        | inr step =>
            Returned (render c (prefix row) (current_value row + step))
              (written key row (current_value row + step) sess st)
              (acquire sess st key)
        end
      else Blocked sess st
  end.
Proof.
  unfold allocate, generate_sequence_id; simpl.
  unfold select_for_update.
  destruct (view sess st !! key_of (c_key c)) as [row|] eqn:Hrow; [|done].
  destruct (available sess st (key_of (c_key c))) eqn:Hav; [|done].
  unfold columns.
  destruct (choose_step (step_min row) (step_max row) (c_draw c)) as [e|n];
    simpl; [done|].
  unfold update_row.
  rewrite view_acquire, Hrow, available_acquire, acquire_twice.
  unfold render, written.
  by destruct (negb (c_with_prefix c) && negb (c_with_datetime c))%bool.
Qed.

(** A call that returns has read a row, chosen a step and written the sum. *)
Lemma run_allocate_returned c sess st v sess' st' :
  run (allocate c) sess st = Returned v sess' st' ->
  exists row n,
    view sess st !! key_of (c_key c) = Some row /\
    available sess st (key_of (c_key c)) = true /\
    choose_step (step_min row) (step_max row) (c_draw c) = inr n /\
    v = render c (prefix row) (current_value row + n) /\
    sess' = written (key_of (c_key c)) row (current_value row + n) sess st /\
    st' = acquire sess st (key_of (c_key c)).
Proof.
  rewrite run_allocate; simpl.
  destruct (view sess st !! key_of (c_key c)) as [row|]; [|done].
  destruct (available sess st (key_of (c_key c))); [|done].
  destruct (choose_step _ _ _) as [e|n] eqn:Hn; [done|].
  intros [= <- <- <-]. by exists row, n.
Qed.

(** A row that satisfies the invariant makes the call return. *)
Lemma run_allocate_well_formed c sess st row :
  view sess st !! key_of (c_key c) = Some row ->
  available sess st (key_of (c_key c)) = true ->
  well_formed row ->
  exists n,
    step_min row <= n <= step_max row /\
    run (allocate c) sess st =
      Returned (render c (prefix row) (current_value row + n))
        (written (key_of (c_key c)) row (current_value row + n) sess st)
        (acquire sess st (key_of (c_key c))).
Proof.
  intros Hrow Hav [_ Hle].
  destruct (choose_step_total (step_min row) (step_max row) (c_draw c) Hle)
    as [n Hn].
  exists n. split; [by eapply choose_step_range|].
  rewrite run_allocate; simpl. by rewrite Hrow, Hav, Hn.
Qed.

Lemma run_bind {A B : Type} (p : prog A) (f : A -> prog B) sess st :
  run (bind p f) sess st =
  match run p sess st with
  | Returned a sess' st' => run (f a) sess' st'
  | Raised e sess' st' => Raised e sess' st'
  | Blocked sess' st' => Blocked sess' st'
  end.
Proof.
  revert sess st.
  induction p as [a|e|key k IH|key v k IH|key k IH|key c k IH|k IH|k IH];
    intros sess st; simpl; try done.
  - destruct (select_for_update key sess st) as [[r st']|]; [apply IH|done].
  - destruct (update_row key v sess st) as [[sess' st']|]; [apply IH|done].
  - destruct (insert_row key c sess st) as [[[r sess'] st']|]; [apply IH|done].
Qed.

(** ** Successive allocations *)

Lemma running_above cv steps :
  Forall (fun n => 1 <= n) steps -> Forall (fun x => cv < x) (running cv steps).
Proof.
  intros H. revert cv. induction H as [|n steps Hn _ IH]; intros cv; simpl.
  - constructor.
  - constructor; [lia|].
    eapply Forall_impl; [apply IH|]. simpl. intros x Hx. lia.
Qed.

Lemma running_sorted cv steps :
  Forall (fun n => 1 <= n) steps -> StronglySorted Z.lt (cv :: running cv steps).
Proof.
  intros H. revert cv. induction H as [|n steps Hn Hs IH]; intros cv.
  - repeat constructor.
  - constructor; [apply IH|].
    apply (running_above cv (n :: steps)). by constructor.
Qed.


Lemma last_cons (x d : Z) (l : list Z) : List.last (x :: l) d = List.last l x.
Proof.
  revert x d. induction l as [|y l IH]; intros x d; [done|].
  change (List.last (y :: l) d = List.last (y :: l) x). by rewrite !IH.
Qed.

Lemma length_running cv steps : length (running cv steps) = length steps.
Proof. revert cv. induction steps; intros; simpl; [done|]. by f_equal. Qed.



(** ** Errors of an allocation *)

(** C3: [generate_sequence_id] on a key without a row raises the
    [ValueError] "Sequence '<key>' not found"; it creates no row: the session
    and the store are left exactly as they were. *)
Theorem generate_sequence_id_unknown_key draw now seq_key with_prefix
    with_datetime datetime_format sess st :
  view sess st !! key_of seq_key = None ->
  run (generate_sequence_id draw now seq_key with_prefix with_datetime
         datetime_format) sess st
  = Raised (ValueError ("Sequence '" +:+ key_of seq_key +:+ "' not found"))
      sess st.
Proof.
  intros Hnone.
  change (generate_sequence_id draw now seq_key with_prefix with_datetime
            datetime_format)
    with (allocate (mkCall draw now seq_key with_prefix with_datetime
                      datetime_format)).
  rewrite run_allocate; simpl. by rewrite Hnone.
Qed.

(** ** The step *)

(** C4: in a call that returns, the step added to the counter is [step_min]
    when the two bounds are equal and the result of
    [random.randint(step_min, step_max)] otherwise; whatever the draw, it
    lies between the bounds.  Each value between the bounds is the result
    of exactly one residue of the entropy modulo the width of the range. *)
Theorem generate_sequence_id_step c sess st v sess' st' :
  run (allocate c) sess st = Returned v sess' st' ->
  exists row n,
    view sess st !! key_of (c_key c) = Some row /\
    current_value <$> view sess' st' !! key_of (c_key c)
      = Some (current_value row + n) /\
    v = render c (prefix row) (current_value row + n) /\
    (step_min row = step_max row -> n = step_min row) /\
    (step_min row <> step_max row ->
       randint (step_min row) (step_max row) (c_draw c) = inr n) /\
    step_min row <= n <= step_max row /\
    (forall t draw, step_min row <= t <= step_max row ->
       randint (step_min row) (step_max row) draw = inr t <->
       draw mod (step_max row - step_min row + 1) = t - step_min row).
Proof.
  intros Hrun.
  destruct (run_allocate_returned _ _ _ _ _ _ Hrun)
    as (row & n & Hrow & Hav & Hn & -> & -> & ->).
  exists row, n. split; [done|]. split; [by rewrite view_written|].
  split; [done|].
  pose proof (choose_step_range _ _ _ _ Hn) as Hrange.
  unfold choose_step in Hn. repeat split.
  - intros Heq. apply Z.eqb_eq in Heq. rewrite Heq in Hn. congruence.
  - intros Hne. apply Z.eqb_neq in Hne. by rewrite Hne in Hn.
  - apply Hrange.
  - apply Hrange.
  - by apply randint_residue.
  - by apply randint_residue.
Qed.

(** ** Formatting *)

Lemma is_sign_pretty_N_char (d : N) : is_sign (pretty_N_char d) = false.
Proof. unfold pretty_N_char. by repeat case_match. Qed.



Lemma join_parts (a b : bool) (x y z : string) :
  join ((if b then (if a then [] ++ [x] else []) ++ [y]
         else (if a then [] ++ [x] else [])) ++ [z])
  = (if a then x else "") +:+ (if b then y else "") +:+ z.
Proof. destruct a, b; simpl; by rewrite ?append_empty_r. Qed.

Lemma format_id_parts with_prefix with_datetime fmt now pre nv :
  format_id with_prefix with_datetime fmt now pre nv
  = (if (with_prefix && truthy pre)%bool then default "" pre else "")
    +:+ (if with_datetime then strftime fmt now else "")
    +:+ zfill 6 (str nv).
Proof. unfold format_id. apply join_parts. Qed.



(** C6: without formatting options [generate_sequence_id] returns the
    integer it stored, not a string: no padding is applied, whatever the
    size of the number. *)
Theorem generate_sequence_id_raw draw now seq_key datetime_format sess st
    row n :
  view sess st !! key_of seq_key = Some row ->
  available sess st (key_of seq_key) = true ->
  choose_step (step_min row) (step_max row) draw = inr n ->
  run (generate_sequence_id draw now seq_key false false datetime_format)
    sess st
  = Returned (IntId (current_value row + n))
      (written (key_of seq_key) row (current_value row + n) sess st)
      (acquire sess st (key_of seq_key)) /\
  current_value <$>
    view (written (key_of seq_key) row (current_value row + n) sess st)
         (acquire sess st (key_of seq_key)) !! key_of seq_key
  = Some (current_value row + n) /\
  (forall v sess' st',
     run (generate_sequence_id draw now seq_key false false datetime_format)
       sess st = Returned v sess' st' ->
     v = IntId (current_value row + n)).
Proof.
  intros Hrow Hav Hn.
  assert (Hrun :
    run (generate_sequence_id draw now seq_key false false datetime_format)
      sess st
    = Returned (IntId (current_value row + n))
        (written (key_of seq_key) row (current_value row + n) sess st)
        (acquire sess st (key_of seq_key))).
  { change (generate_sequence_id draw now seq_key false false datetime_format)
      with (allocate (mkCall draw now seq_key false false datetime_format)).
    rewrite run_allocate; simpl. by rewrite Hrow, Hav, Hn. }
  split; [exact Hrun|]. split; [by rewrite view_written|].
  intros v sess' st'. rewrite Hrun. by intros [= <- _ _].
Qed.

(** ** Different numbers are formatted differently *)

Lemma pretty_N_char_nonzero (d : N) : d <> 0%N -> pretty_N_char d <> "0"%char.
Proof. intros Hd. unfold pretty_N_char. by repeat case_match. Qed.

Lemma pretty_N_go_plain (x : N) : forall s,
  (0 < x)%N ->
  exists c rest,
    pretty_N_go x s = String c rest /\ c <> "0"%char /\ is_sign c = false.
Proof.
  induction (N.lt_wf_0 x) as [x _ IH]. intros s Hx.
  rewrite pretty_N_go_step by done.
  destruct (decide (x `div` 10 = 0)%N) as [Hq|Hq].
  - rewrite Hq, pretty_N_go_0.
    exists (pretty_N_char (x `mod` 10)), s. split; [done|]. split.
    + apply pretty_N_char_nonzero.
      assert (H10 : (10 <> 0)%N) by done.
      pose proof (N.div_mod x 10 H10) as Hx10. rewrite Hq in Hx10. lia.
    + apply is_sign_pretty_N_char.
  - apply IH; [apply N.div_lt; lia | by apply N.neq_0_lt_0].
Qed.

Lemma str_plain (n : Z) : 0 <= n -> plain (str n).
Proof.
  intros Hn. destruct n as [|p|p]; [by left| |lia]. right.
  unfold str, pretty, pretty_Z, pretty, pretty_positive, pretty, pretty_N.
  destruct (decide (N.pos p = 0)%N); [done|].
  by apply pretty_N_go_plain.
Qed.

Lemma str_negative (n : Z) : n < 0 -> str n = String "-" (str (- n)).
Proof. intros Hn. destruct n as [|p|p]; [lia|lia|reflexivity]. Qed.

Lemma str_inj (a b : Z) : str a = str b -> a = b.
Proof. apply pretty_Z_inj. Qed.

Lemma zeros_append_inj k1 : forall k2 s t,
  plain s -> plain t -> zeros k1 +:+ s = zeros k2 +:+ t -> s = t.
Proof.
  assert (Hzero : forall k s t, plain s -> plain t ->
            s = String "0" (zeros k +:+ t) -> False).
  { intros k s t Hs Ht E. destruct Hs as [->|(c & rest & -> & Hc & _)].
    - injection E as E. destruct k as [|k].
      + change ("" = t) in E. subst t.
        by destruct Ht as [?|(? & ? & ? & _)].
      + done.
    - injection E as -> _. done. }
  induction k1 as [|k1 IH]; intros k2 s t Hs Ht E.
  - destruct k2 as [|k2]; [done|]. by destruct (Hzero k2 s t).
  - destruct k2 as [|k2].
    + symmetry in E. by destruct (Hzero k1 t s).
    + injection E as E. by apply (IH k2).
Qed.

Lemma plain_unsigned s c rest : plain s -> s = String c rest -> is_sign c = false.
Proof.
  intros [->|(c' & rest' & -> & _ & H)]; by intros [= <- _].
Qed.

Lemma zfill_plain width s :
  plain s -> zfill width s = zeros (width - String.length s) +:+ s.
Proof. intros Hs. apply zfill_unsigned. intros c rest. by apply plain_unsigned. Qed.

Lemma zfill_minus width r :
  zfill width (String "-" r)
  = String "-" (zeros (width - S (String.length r)) +:+ r).
Proof.
  unfold zfill. simpl String.length.
  destruct (width <=? S (String.length r))%nat eqn:E; [|done].
  apply Nat.leb_le in E.
  by replace (width - S (String.length r))%nat with O by lia.
Qed.

Lemma zeros_plain_head k s c rest :
  plain s -> zeros k +:+ s = String c rest -> is_sign c = false.
Proof.
  intros Hs. destruct k; simpl.
  - by apply plain_unsigned.
  - by intros [= <- _].
Qed.

Lemma zfill_str_inj width (a b : Z) :
  zfill width (str a) = zfill width (str b) -> a = b.
Proof.
  destruct (Z_lt_le_dec a 0) as [Ha|Ha], (Z_lt_le_dec b 0) as [Hb|Hb].
  - rewrite (str_negative a), (str_negative b), !zfill_minus by done.
    intros [= E]. apply zeros_append_inj in E; [|apply str_plain; lia..].
    apply str_inj in E. lia.
  - rewrite (str_negative a), zfill_minus, (zfill_plain _ (str b))
      by (done || by apply str_plain).
    intros E. symmetry in E.
    by apply zeros_plain_head in E; [|by apply str_plain].
  - rewrite (str_negative b), zfill_minus, (zfill_plain _ (str a))
      by (done || by apply str_plain).
    intros E.
    by apply zeros_plain_head in E; [|by apply str_plain].
  - rewrite !zfill_plain by (by apply str_plain).
    intros E. apply zeros_append_inj in E; [|by apply str_plain..].
    by apply str_inj.
Qed.

Lemma append_inj_l (p s t : string) : p +:+ s = p +:+ t -> s = t.
Proof.
  induction p as [|c p IH]; [done|].
  change (String c (p +:+ s) = String c (p +:+ t) -> s = t).
  intros [= E]. by apply IH.
Qed.

(** Calls that format in the same way return different values for
    different numbers. *)
Lemma render_inj c c' pre nv nw :
  same_format c c' -> render c pre nv = render c' pre nw -> nv = nw.
Proof.
  intros (Hp & Hd & Hf & Hn). unfold render.
  rewrite <- Hp, <- Hd, <- Hf, <- Hn.
  destruct (negb (c_with_prefix c) && negb (c_with_datetime c))%bool.
  - congruence.
  - rewrite !format_id_parts. intros [= E].
    apply append_inj_l, append_inj_l in E. by apply zfill_str_inj in E.
Qed.

(** ** Initialization *)

Lemma select_one_true key sess st :
  select_one key sess st = true <-> is_Some (view sess st !! key).
Proof. unfold select_one. apply bool_decide_eq_true. Qed.

Lemma select_one_false key sess st :
  select_one key sess st = false <-> view sess st !! key = None.
Proof.
  unfold select_one. rewrite bool_decide_eq_false.
  by rewrite eq_None_not_Some.
Qed.

(** Every way a call of [init_sequence] can end. *)
Lemma run_init_sequence import_draw seq_key defaults sess st :
  run (init_sequence import_draw seq_key defaults) sess st =
  let key := key_of seq_key in
  match view sess st !! key with
  | Some _ => Returned tt sess st
  | None =>
      if available sess st key then
        let '(sess', st') :=
          initialized key (effective import_draw key defaults) sess st in
        Returned tt sess' st'
      else Blocked sess st
  end.
Proof.
  unfold init_sequence; simpl.
  destruct (view sess st !! key_of seq_key) as [row|] eqn:Hrow.
  - assert (select_one (key_of seq_key) sess st = true) as ->; [|done].
    apply select_one_true. by rewrite Hrow.
  - assert (select_one (key_of seq_key) sess st = false) as ->.
    { by apply select_one_false. }
    simpl. unfold insert_row. rewrite Hrow.
    destruct (available sess st (key_of seq_key)); [|done].
    simpl. unfold initialized, effective, view; simpl.
    by rewrite insert_union_l.
Qed.

Lemma initialized_view key c sess st :
  view (initialized key c sess st).1 (initialized key c sess st).2 !! key
  = Some (row_of_config c (db_now st)).
Proof.
  unfold initialized, view; simpl.
  rewrite (left_id_L ∅ (∪)). apply lookup_insert_eq.
Qed.

(** After a call of [init_sequence] has returned, the session sees a row
    for the key. *)
Lemma init_sequence_present import_draw seq_key defaults sess st sess' st' :
  run (init_sequence import_draw seq_key defaults) sess st
    = Returned tt sess' st' ->
  is_Some (view sess' st' !! key_of seq_key).
Proof.
  rewrite run_init_sequence; simpl.
  destruct (view sess st !! key_of seq_key) as [row|] eqn:Hrow.
  - intros [= <- <-]. by rewrite Hrow.
  - destruct (available sess st (key_of seq_key)); [|done].
    intros [= <- <-].
    pose proof (initialized_view (key_of seq_key)
                  (effective import_draw (key_of seq_key) defaults) sess st) as H.
    simpl in H. by rewrite H.
Qed.

(** Two calls in a row: the second one finds the row, whether the first one
    found it or created it. *)
Lemma init_sequence_twice import_draw import_draw' seq_key defaults defaults'
    sess st sess' st' :
  run (init_sequence import_draw seq_key defaults) sess st
    = Returned tt sess' st' ->
  run (init_sequence import_draw' seq_key defaults') sess' st'
    = Returned tt sess' st'.
Proof.
  intros Hfirst.
  destruct (init_sequence_present _ _ _ _ _ _ _ Hfirst) as [row Hrow].
  rewrite run_init_sequence; simpl. by rewrite Hrow.
Qed.

(** C7: when the session sees a row for the key, [init_sequence] returns
    without touching the session or the store, whatever defaults the caller
    passes.  So after a first call has returned, a second one, with any
    other defaults, leaves every row as it is. *)
Theorem init_sequence_existing_noop seq_key sess st :
  (forall import_draw defaults,
     is_Some (view sess st !! key_of seq_key) ->
     run (init_sequence import_draw seq_key defaults) sess st
       = Returned tt sess st) /\
  (forall import_draw defaults import_draw' defaults' sess' st',
     run (init_sequence import_draw seq_key defaults) sess st
       = Returned tt sess' st' ->
     run (init_sequence import_draw' seq_key defaults') sess' st'
       = Returned tt sess' st').
Proof.
  split.
  - intros d df [row Hrow]. rewrite run_init_sequence; simpl. by rewrite Hrow.
  - intros d df d' df' sess' st' Hfirst. by eapply init_sequence_twice.
Qed.

Lemma dict_get_known import_draw k c :
  In (k, c) (SEQ_INIT_CONFIG import_draw) ->
  dict_get (SEQ_INIT_CONFIG import_draw) (value k) = Some c.
Proof.
  simpl. intros [[= <- <-]|[[= <- <-]|[]]]; reflexivity.
Qed.

Lemma dict_get_unknown import_draw key :
  (forall k, key <> value k) ->
  dict_get (SEQ_INIT_CONFIG import_draw) key = None.
Proof.
  intros Hkey. unfold SEQ_INIT_CONFIG, dict_get.
  destruct (String.eqb_spec (value USER_ID) key) as [E|_];
    [by destruct (Hkey USER_ID)|].
  destruct (String.eqb_spec (value ORDER_NO) key) as [E|_];
    [by destruct (Hkey ORDER_NO)|]. done.
Qed.

Lemma user_id_base_randint import_draw :
  randint 1000000 1001000 import_draw = inr (user_id_base import_draw).
Proof. reflexivity. Qed.

Lemma user_id_base_range import_draw :
  1000000 <= user_id_base import_draw <= 1001000.
Proof.
  unfold user_id_base. pose proof (Z.mod_pos_bound import_draw 1001). lia.
Qed.

(** C8: when [init_sequence] creates the row, the row holds the values of
    [SEQ_INIT_CONFIG] for a key of that table, whatever the caller passed,
    and the caller's values for any other key. *)
Theorem init_sequence_known_config import_draw seq_key defaults sess st :
  view sess st !! key_of seq_key = None ->
  available sess st (key_of seq_key) = true ->
  exists sess' st' row,
    run (init_sequence import_draw seq_key defaults) sess st
      = Returned tt sess' st' /\
    rows st' !! key_of seq_key = Some row /\
    (forall k c, In (k, c) (SEQ_INIT_CONFIG import_draw) ->
       key_of seq_key = value k -> row = row_of_config c (db_now st)) /\
    ((forall k, key_of seq_key <> value k) ->
       row = row_of_config defaults (db_now st)) /\
    (key_of seq_key = "user_id" ->
       row = mkRow (user_id_base import_draw) 1 20 None (Some "用户ID")
               (db_now st) (db_now st) /\
       1000000 <= user_id_base import_draw <= 1001000) /\
    (key_of seq_key = "order_no" ->
       row = mkRow 1 1 1 (Some "ORD") (Some "充值订单号")
               (db_now st) (db_now st)).
Proof.
  intros Hnone Hav.
  set (key := key_of seq_key) in *.
  exists (initialized key (effective import_draw key defaults) sess st).1,
         (initialized key (effective import_draw key defaults) sess st).2,
         (row_of_config (effective import_draw key defaults) (db_now st)).
  split; [|split; [|split; [|split; [|split]]]].
  - rewrite run_init_sequence; simpl. fold key. by rewrite Hnone, Hav.
  - simpl. apply lookup_insert_eq.
  - intros k c Hin Hk. unfold effective.
    by rewrite Hk, (dict_get_known _ _ _ Hin).
  - intros Hk. unfold effective. by rewrite dict_get_unknown.
  - intros Hk. unfold effective. rewrite Hk. simpl.
    split; [done | apply user_id_base_range].
  - intros Hk. unfold effective. by rewrite Hk.
Qed.

(** ** Commits *)

(** C10: where [init_sequence] inserts a row it commits the session at
    once: the rows the caller had written in the same transaction become
    committed with it and its locks are released.  Where the row exists it
    returns without a commit.  [generate_sequence_id] neither commits nor
    rolls back, however it ends. *)
Theorem init_sequence_commits_caller import_draw seq_key defaults sess st :
  available sess st (key_of seq_key) = true ->
  (view sess st !! key_of seq_key = None ->
     exists sess' st',
       run (init_sequence import_draw seq_key defaults) sess st
         = Returned tt sess' st' /\
       commits sess' = S (commits sess) /\
       rollbacks sess' = rollbacks sess /\
       writes sess' = ∅ /\
       (forall k row, k <> key_of seq_key ->
          writes sess !! k = Some row -> rows st' !! k = Some row) /\
       is_Some (rows st' !! key_of seq_key) /\
       (forall k, locks st' !! k <> Some (sid sess))) /\
  (is_Some (view sess st !! key_of seq_key) ->
     run (init_sequence import_draw seq_key defaults) sess st
       = Returned tt sess st) /\
  (forall c,
     match run (allocate c) sess st with
     | Returned _ sess' st' | Raised _ sess' st' | Blocked sess' st' =>
         commits sess' = commits sess /\
         rollbacks sess' = rollbacks sess /\
         rows st' = rows st
     end).
Proof.
  intros Hav. split; [|split].
  - intros Hnone.
    set (key := key_of seq_key) in *.
    exists (initialized key (effective import_draw key defaults) sess st).1,
           (initialized key (effective import_draw key defaults) sess st).2.
    split; [|split; [|split; [|split; [|split; [|split]]]]]; try done.
    + rewrite run_init_sequence; simpl. fold key. by rewrite Hnone, Hav.
    + intros k row Hk Hw. simpl. rewrite lookup_insert_ne by done.
      by apply lookup_union_Some_l.
    + simpl. rewrite lookup_insert_eq. eauto.
    + intros k Hk. simpl in Hk. unfold release in Hk.
      apply map_lookup_filter_Some in Hk as [_ Hne]. by simpl in Hne.
  - intros [row Hrow]. rewrite run_init_sequence; simpl. by rewrite Hrow.
  - intros c. rewrite run_allocate; simpl.
    destruct (view sess st !! key_of (c_key c)) as [row|]; [|done].
    destruct (available sess st (key_of (c_key c))); [|done].
    by destruct (choose_step _ _ _).
Qed.

(** ** Concurrent callers *)

Lemma schedule_sound {A : Type} (order : list nat) : forall st (pool : list (thread A)) cfg,
  schedule order st pool = Some cfg -> rtc step (st, pool) cfg.
Proof.
  induction order as [|i order IH]; intros st pool cfg; simpl.
  - intros [= <-]. apply rtc_refl.
  - destruct (pool !! i) as [[p sess]|] eqn:Hi; [|done]. simpl.
    destruct (exec p sess st) as [[[p' sess'] st']|] eqn:He; [|done]. simpl.
    intros Hrest. eapply rtc_l; [|by apply IH].
    by eapply step_thread.
Qed.

(** The first statement of a caller: the locking read. *)
Lemma exec_caller c sess st :
  exec (caller c) sess st =
  let key := key_of (c_key c) in
  match view sess st !! key with
  | None =>
      Some (Rollback (Raise (ValueError ("Sequence '" +:+ key +:+ "' not found"))),
            sess, st)
  | Some row =>
      if available sess st key then
        Some (match choose_step (step_min row) (step_max row) (c_draw c) with
              | inl e => Rollback (Raise e)
              | inr n =>
                  Update key (current_value row + n)
                    (Commit (Ret (render c (prefix row) (current_value row + n))))
              end, sess, acquire sess st key)
      else None
  end.
Proof.
  unfold caller, DatabaseMiddleware, allocate, generate_sequence_id; simpl.
  unfold select_for_update.
  destruct (view sess st !! key_of (c_key c)) as [row|]; [|done].
  destruct (available sess st (key_of (c_key c))); [|done]. simpl.
  destruct (choose_step _ _ _) as [e|n]; simpl; [done|].
  unfold render.
  by destruct (negb (c_with_prefix c) && negb (c_with_datetime c))%bool.
Qed.

Lemma spawn_lookup {A : Type} (ps : list (prog A)) i t :
  spawn ps !! i = Some t <-> exists p, ps !! i = Some p /\ t = (p, new_session i).
Proof.
  unfold spawn. rewrite list_lookup_imap.
  destruct (ps !! i) as [p|]; simpl; split.
  - intros [= <-]. eauto.
  - by intros (q & [= <-] & ->).
  - done.
  - by intros (q & ? & _).
Qed.

Lemma view_clean sess st : writes sess = ∅ -> view sess st = rows st.
Proof. intros H. unfold view. rewrite H. apply (left_id_L ∅ (∪)). Qed.

Lemma available_owner sess st key :
  locks st !! key = Some (sid sess) -> available sess st key = true.
Proof. intros H. unfold available. rewrite H. apply Nat.eqb_refl. Qed.

Lemma available_free sess st key :
  available sess st key = true ->
  locks st !! key = None \/ locks st !! key = Some (sid sess).
Proof.
  unfold available. destruct (locks st !! key) as [o|]; [|by left].
  intros H. apply Nat.eqb_eq in H. right. by f_equal.
Qed.

Lemma release_lookup sess l key :
  l !! key = None \/ l !! key = Some (sid sess) -> release sess l !! key = None.
Proof.
  intros H. unfold release. apply map_lookup_filter_None.
  destruct H as [H|H]; [by left|]. right. intros o Ho. simpl.
  rewrite H in Ho. injection Ho as <-. tauto.
Qed.

(** A step of caller [i] that moves the lock of [key] only between free
    and held by [i], and never lowers the counter, keeps what is known
    about any other caller. *)
Lemma thread_inv_other key pre st st' i j c ph t row row' :
  i <> j ->
  locks st !! key = None \/ locks st !! key = Some i ->
  locks st' !! key = None \/ locks st' !! key = Some i ->
  rows st !! key = Some row ->
  rows st' !! key = Some row' ->
  current_value row <= current_value row' ->
  thread_inv key pre st j c ph t ->
  thread_inv key pre st' j c ph t.
Proof.
  intros Hij Hl Hl' Hrow Hrow' Hle [Hsid Hph]. split; [done|].
  assert (Hnj : locks st !! key <> Some j) by (destruct Hl as [->| ->]; congruence).
  assert (Hnj' : locks st' !! key <> Some j) by (destruct Hl' as [->| ->]; congruence).
  destruct ph as [|nv|nv|nv].
  - destruct Hph as (Hp & Hw & _). done.
  - destruct Hph as (_ & _ & Hlock & _). done.
  - destruct Hph as (_ & Hlock & _). done.
  - destruct Hph as (Hp & Hw & _ & row1 & Hrow1 & Hnv).
    repeat split; try done. exists row'. split; [done|].
    rewrite Hrow in Hrow1. injection Hrow1 as <-. lia.
Qed.

Section Callers.

Variables (key : string) (smin smax : Z) (pre : option string).
Variable calls : list call.
Hypothesis Hbounds : 1 <= smin <= smax.
Hypothesis Hkey : on_key key calls.

Lemma call_key i c : calls !! i = Some c -> key_of (c_key c) = key.
Proof.
  intros Hc. unfold on_key in Hkey. rewrite Forall_forall in Hkey.
  apply Hkey. by eapply list_elem_of_lookup_2.
Qed.

(** The invariant holds when no caller has started. *)
Lemma pool_inv_init st row :
  rows st !! key = Some row ->
  locks st !! key = None ->
  step_min row = smin -> step_max row = smax -> prefix row = pre ->
  pool_inv key smin smax pre calls (fun _ => Idle) st (spawn (caller <$> calls)).
Proof.
  intros Hrow Hlock Hmin Hmax Hpre. split; [by exists row|]. split.
  { unfold spawn. by rewrite length_imap, length_fmap. }
  split; [|done].
  intros i c t Hc Ht. apply spawn_lookup in Ht as (p & Hp & ->).
  rewrite list_lookup_fmap, Hc in Hp. injection Hp as <-.
  split; [done|]. simpl. rewrite Hlock. done.
Qed.

(** A statement of caller [i] takes it to its next phase and keeps the
    invariant. *)
Lemma thread_step phs st pool i p sess p' sess' st' :
  pool_inv key smin smax pre calls phs st pool ->
  pool !! i = Some (p, sess) ->
  exec p sess st = Some (p', sess', st') ->
  exists ph',
    follows (phs i) ph' /\
    locks st' !! key = holder i ph' /\
    pool_inv key smin smax pre calls (advance phs i ph') st'
      (<[i := (p', sess')]> pool).
Proof.
  intros ((row & Hrow & Hmin & Hmax & Hpre) & Hlen & Hth & Hdist) Hi Hexec.
  assert (Hlt : (i < length calls)%nat).
  { rewrite <- Hlen. by eapply lookup_lt_Some. }
  destruct (lookup_lt_is_Some_2 calls i Hlt) as [c Hc].
  pose proof (call_key i c Hc) as Hck.
  destruct (Hth i c (p, sess) Hc Hi) as [Hsid Hph]. simpl in Hsid, Hph.
  (* what the step must establish to conclude *)
  assert (Hclose : forall ph' row',
    rows st' !! key = Some row' ->
    step_min row' = smin -> step_max row' = smax -> prefix row' = pre ->
    current_value row <= current_value row' ->
    (locks st !! key = None \/ locks st !! key = Some i) ->
    (locks st' !! key = None \/ locks st' !! key = Some i) ->
    thread_inv key pre st' i c ph' (p', sess') ->
    (forall nv, ph' = Done nv -> current_value row < nv) ->
    pool_inv key smin smax pre calls (advance phs i ph') st'
      (<[i := (p', sess')]> pool)).
  { intros ph' row' Hrow' Hmin' Hmax' Hpre' Hle Hl Hl' Hinv Hnew.
    unfold advance.
    split; [by exists row'|]. split; [by rewrite length_insert|]. split.
    - intros j cj t Hcj Ht. destruct (decide (j = i)) as [->|Hne].
      + rewrite list_lookup_insert_eq in Ht by (by eapply lookup_lt_Some).
        injection Ht as <-. rewrite Hc in Hcj. by injection Hcj as <-.
      + rewrite list_lookup_insert_ne in Ht by done.
        eapply (thread_inv_other key pre st st' i j); eauto.
    - intros j1 j2 nv nw Hj1 Hj2 Hne.
      assert (Hold : forall j nw', (j < length calls)%nat -> j <> i ->
                phs j = Done nw' -> nw' <= current_value row).
      { intros j nw' Hj Hji Hd.
        destruct (lookup_lt_is_Some_2 calls j Hj) as [cj Hcj].
        destruct (lookup_lt_is_Some_2 pool j) as [tj Htj]; [lia|].
        destruct (Hth j cj tj Hcj Htj) as [_ Hj']. rewrite Hd in Hj'.
        destruct Hj' as (_ & _ & _ & r & Hr & Hnw).
        rewrite Hrow in Hr. injection Hr as <-. done. }
      destruct (decide (j1 = i)) as [->|H1], (decide (j2 = i)) as [->|H2].
      + done.
      + intros Hd1 Hd2. specialize (Hnew nv Hd1).
        specialize (Hold j2 nw Hj2 H2 Hd2). lia.
      + intros Hd1 Hd2. specialize (Hnew nw Hd2).
        specialize (Hold j1 nv Hj1 H1 Hd1). lia.
      + by apply Hdist. }
  destruct (phs i) as [|nv|nv|nv] eqn:Hphase.
  - (* the locking read *)
    destruct Hph as (Hp & Hw & Hfree). simpl in Hp. subst p.
    rewrite exec_caller in Hexec. simpl in Hexec.
    rewrite Hck, (view_clean _ _ Hw), Hrow in Hexec.
    destruct (available sess st key) eqn:Hav; [|done].
    destruct (choose_step_total (step_min row) (step_max row) (c_draw c))
      as [n Hn]; [lia|].
    rewrite Hn in Hexec. injection Hexec as <- <- <-.
    assert (Hnone : locks st !! key = None).
    { destruct (available_free _ _ _ Hav) as [H|H]; [done|].
      rewrite Hsid in H. done. }
    assert (Hheld : locks (acquire sess st key) !! key = Some i).
    { simpl. by rewrite lookup_insert_eq, Hsid. }
    exists (Locked (current_value row + n)).
    split; [done|]. split; [done|].
    apply (Hclose (Locked (current_value row + n)) row);
      [done|done|done|done|lia|by left|by right| |done].
    split; [done|]. simpl. rewrite Hpre.
    repeat split; try done. by exists row, n.
  - (* the update *)
    destruct Hph as (Hp & Hw & Hlock & row1 & n & Hrow1 & Hn & Hnv).
    simpl in Hp. subst p. rewrite Hrow in Hrow1. injection Hrow1 as <-.
    simpl in Hexec. unfold update_row in Hexec.
    rewrite (view_clean _ _ Hw), Hrow in Hexec.
    rewrite available_owner in Hexec by (by rewrite Hsid).
    simpl in Hexec. injection Hexec as <- <- <-.
    pose proof (choose_step_range _ _ _ _ Hn) as Hrange.
    assert (Hheld : locks (acquire sess st key) !! key = Some i).
    { simpl. by rewrite lookup_insert_eq, Hsid. }
    exists (Written nv). split; [done|]. split; [done|].
    apply (Hclose (Written nv) row);
      [done|done|done|done|lia|by right|by right| |done].
    split; [done|]. simpl. repeat split; try done.
    exists row. split; [done|]. split; [lia|].
    by rewrite Hw, insert_empty.
  - (* the commit *)
    destruct Hph as (Hp & Hlock & row1 & Hrow1 & Hnv & Hw).
    simpl in Hp. subst p. rewrite Hrow in Hrow1. injection Hrow1 as <-.
    simpl in Hexec. injection Hexec as <- <- <-.
    assert (Hrel : release sess (locks st) !! key = None).
    { apply release_lookup. right. by rewrite Hsid. }
    exists (Done nv). split; [done|]. split; [done|].
    apply (Hclose (Done nv) (set_value row nv (db_now st)));
      [ |done|done|done|simpl; lia|by right|by left| | ].
    + simpl. unfold view. rewrite Hw.
      apply lookup_union_Some_l, lookup_singleton_eq.
    + split; [done|]. simpl. repeat split; try done.
      * by rewrite Hrel.
      * exists (set_value row nv (db_now st)). split; [|done].
        unfold view. rewrite Hw.
        apply lookup_union_Some_l, lookup_singleton_eq.
    + by intros nv' [= <-].
  - (* a caller that has returned takes no step *)
    destruct Hph as (Hp & _). simpl in Hp. subst p. done.
Qed.

(** Every step of every caller keeps the invariant, and leaves the lock
    free or with one of the callers. *)
Lemma pool_inv_step phs st pool st' pool' :
  pool_inv key smin smax pre calls phs st pool ->
  step (st, pool) (st', pool') ->
  exists phs',
    pool_inv key smin smax pre calls phs' st' pool' /\
    lock_inv key (length calls) st'.
Proof.
  intros Hinv Hstep.
  inversion Hstep as [st0 pool0 i p sess p' sess' st1 Hi Hexec E0 E1].
  subst st0 pool0 st1 pool'.
  destruct (thread_step _ _ _ _ _ _ _ _ _ Hinv Hi Hexec)
    as (ph' & _ & Hlock & H).
  exists (advance phs i ph'). split; [done|].
  assert (Hlt : (i < length calls)%nat).
  { destruct Hinv as (_ & Hlen & _). rewrite <- Hlen.
    by eapply lookup_lt_Some. }
  unfold lock_inv. rewrite Hlock.
  destruct ph'; simpl; eauto.
Qed.

Lemma pool_inv_rtc cfg cfg' :
  rtc step cfg cfg' ->
  forall phs, pool_inv key smin smax pre calls phs cfg.1 cfg.2 ->
  lock_inv key (length calls) cfg.1 ->
  exists phs',
    pool_inv key smin smax pre calls phs' cfg'.1 cfg'.2 /\
    lock_inv key (length calls) cfg'.1.
Proof.
  induction 1 as [cfg|cfg1 cfg2 cfg3 Hstep _ IH]; intros phs Hinv Hlock;
    [eauto|].
  destruct cfg1 as [st1 pool1], cfg2 as [st2 pool2].
  destruct (pool_inv_step _ _ _ _ _ Hinv Hstep) as (phs2 & Hinv2 & Hlock2).
  by apply (IH phs2).
Qed.

(** A caller that has not returned can take a step, unless it waits for
    the lock. *)
Lemma thread_ready phs st pool i :
  pool_inv key smin smax pre calls phs st pool ->
  (i < length calls)%nat ->
  (phs i = Idle -> locks st !! key = None) ->
  ~ is_done (phs i) ->
  exists p sess p' sess' st',
    pool !! i = Some (p, sess) /\ exec p sess st = Some (p', sess', st').
Proof.
  intros ((row & Hrow & Hmin & Hmax & Hpre) & Hlen & Hth & _) Hlt Hidle Hnot.
  destruct (lookup_lt_is_Some_2 calls i Hlt) as [c Hc].
  destruct (lookup_lt_is_Some_2 pool i) as [[p sess] Hi]; [lia|].
  pose proof (call_key i c Hc) as Hck.
  destruct (Hth i c (p, sess) Hc Hi) as [Hsid Hph]. simpl in Hsid, Hph.
  exists p, sess.
  destruct (phs i) as [|nv|nv|nv] eqn:Hphase.
  - destruct Hph as (-> & Hw & _).
    eexists _, _, _. split; [done|].
    rewrite exec_caller. simpl.
    rewrite Hck, (view_clean _ _ Hw), Hrow.
    unfold available. by rewrite (Hidle eq_refl).
  - destruct Hph as (-> & Hw & Hlock & _).
    eexists _, _, _. split; [done|].
    simpl. unfold update_row.
    rewrite (view_clean _ _ Hw), Hrow.
    rewrite available_owner by (by rewrite Hsid). done.
  - destruct Hph as (-> & _).
    eexists _, _, _. split; [done|]. done.
  - destruct Hnot. by exists nv.
Qed.

Lemma advance_eq phs i ph : advance phs i ph i = ph.
Proof. unfold advance. by rewrite decide_True. Qed.

Lemma advance_ne phs i j ph : j <> i -> advance phs i ph j = phs j.
Proof. intros H. unfold advance. by rewrite decide_False. Qed.

Lemma remaining_ext phs phs' n :
  (forall j, (j < n)%nat -> phs' j = phs j) ->
  remaining phs' n = remaining phs n.
Proof.
  induction n as [|n IH]; intros H; simpl; [done|].
  rewrite IH by (intros j Hj; apply H; lia). rewrite H by lia. done.
Qed.

(** A step of caller [i] takes one statement off what remains. *)
Lemma remaining_advance phs i ph' n :
  (i < n)%nat ->
  rank (phs i) = S (rank ph') ->
  remaining phs n = S (remaining (advance phs i ph') n).
Proof.
  induction n as [|n IH]; intros Hi Hrank; [lia|]. simpl.
  destruct (decide (i = n)) as [->|Hne].
  - rewrite advance_eq, Hrank.
    rewrite (remaining_ext phs (advance phs n ph') n); [lia|].
    intros j Hj. apply advance_ne. lia.
  - rewrite advance_ne by done. rewrite IH by (lia || done). lia.
Qed.

Lemma follows_rank ph ph' : follows ph ph' -> rank ph = S (rank ph').
Proof. by destruct ph, ph'. Qed.

Lemma remaining_done phs n :
  remaining phs n = O -> forall i, (i < n)%nat -> is_done (phs i).
Proof.
  induction n as [|n IH]; intros H i Hi; [lia|]. simpl in H.
  destruct (decide (i = n)) as [->|Hne].
  - destruct (phs n) as [|nv|nv|nv]; simpl in H; try lia. by exists nv.
  - apply IH; lia.
Qed.

Lemma remaining_pending phs n :
  remaining phs n <> O -> exists i, (i < n)%nat /\ ~ is_done (phs i).
Proof.
  induction n as [|n IH]; intros H; [done|]. simpl in H.
  destruct (phs n) as [|nv|nv|nv] eqn:Hn.
  - exists n. split; [lia|]. rewrite Hn. by intros [? ?].
  - exists n. split; [lia|]. rewrite Hn. by intros [? ?].
  - exists n. split; [lia|]. rewrite Hn. by intros [? ?].
  - destruct IH as (i & Hi & Hnot); [simpl in H; lia|].
    exists i. split; [lia|done].
Qed.

(** As long as a caller has not returned, some caller can take a step: the
    holder of the lock if there is one, any caller otherwise. *)
Lemma some_thread_ready phs st pool :
  pool_inv key smin smax pre calls phs st pool ->
  lock_inv key (length calls) st ->
  remaining phs (length calls) <> O ->
  exists i p sess p' sess' st',
    pool !! i = Some (p, sess) /\ exec p sess st = Some (p', sess', st').
Proof.
  intros Hinv Hlock Hrem.
  destruct Hlock as [Hfree|(j & Hj & Hheld)].
  - destruct (remaining_pending _ _ Hrem) as (i & Hi & Hnot).
    exists i. by apply (thread_ready phs st pool i).
  - exists j. apply (thread_ready phs st pool j); [done|done| |].
    + intros Hidle.
      pose proof Hinv as (_ & Hlen & Hth & _).
      destruct (lookup_lt_is_Some_2 calls j Hj) as [c Hc].
      destruct (lookup_lt_is_Some_2 pool j) as [t Ht]; [lia|].
      destruct (Hth j c t Hc Ht) as [_ Hph]. rewrite Hidle in Hph.
      by destruct Hph as (_ & _ & Hne).
    + intros [nv Hdone].
      pose proof Hinv as (_ & Hlen & Hth & _).
      destruct (lookup_lt_is_Some_2 calls j Hj) as [c Hc].
      destruct (lookup_lt_is_Some_2 pool j) as [t Ht]; [lia|].
      destruct (Hth j c t Hc Ht) as [_ Hph]. rewrite Hdone in Hph.
      by destruct Hph as (_ & _ & Hne & _).
Qed.

(** From every state the invariant allows, all callers can run to their
    end: nobody waits for ever. *)
Lemma callers_finish m : forall phs st pool,
  (remaining phs (length calls) <= m)%nat ->
  pool_inv key smin smax pre calls phs st pool ->
  lock_inv key (length calls) st ->
  exists phs' st' pool',
    rtc step (st, pool) (st', pool') /\
    pool_inv key smin smax pre calls phs' st' pool' /\
    (forall i, (i < length calls)%nat -> is_done (phs' i)).
Proof.
  induction m as [|m IH]; intros phs st pool Hm Hinv Hlock.
  - exists phs, st, pool. split; [apply rtc_refl|]. split; [done|].
    apply remaining_done. lia.
  - destruct (decide (remaining phs (length calls) = O)) as [Hz|Hnz].
    { exists phs, st, pool. split; [apply rtc_refl|]. split; [done|].
      by apply remaining_done. }
    destruct (some_thread_ready phs st pool Hinv Hlock Hnz)
      as (i & p & sess & p' & sess' & st' & Hi & Hexec).
    assert (Hlt : (i < length calls)%nat).
    { destruct Hinv as (_ & Hlen & _). rewrite <- Hlen.
      by eapply lookup_lt_Some. }
    destruct (thread_step _ _ _ _ _ _ _ _ _ Hinv Hi Hexec)
      as (ph' & Hfollows & Hheld & Hinv').
    pose proof (remaining_advance phs i ph' (length calls) Hlt
                  (follows_rank _ _ Hfollows)) as Hdec.
    destruct (IH (advance phs i ph') st' (<[i := (p', sess')]> pool))
      as (phs2 & st2 & pool2 & Hrun & Hinv2 & Hall); [lia|done| |].
    { unfold lock_inv. rewrite Hheld. destruct ph'; simpl; eauto. }
    exists phs2, st2, pool2. split; [|done].
    eapply rtc_l; [by eapply step_thread|done].
Qed.

End Callers.

(** A caller that has returned has committed the value it returns. *)
Lemma pool_inv_returned key smin smax pre calls phs st pool i c v s :
  pool_inv key smin smax pre calls phs st pool ->
  calls !! i = Some c ->
  pool !! i = Some (Ret v, s) ->
  exists nv, phs i = Done nv /\ v = render c pre nv.
Proof.
  intros (_ & _ & Hth & _) Hc Hi.
  destruct (Hth i c _ Hc Hi) as [_ Hph]. simpl in Hph.
  destruct (phs i) as [|nv|nv|nv].
  - by destruct Hph as (Hp & _).
  - by destruct Hph as (Hp & _).
  - by destruct Hph as (Hp & _).
  - destruct Hph as (Hp & _). injection Hp as ->. by exists nv.
Qed.

(** A caller between its locking read and the end of its transaction holds
    the lock of the key. *)
Lemma pool_inv_critical key smin smax pre calls phs st pool i p s :
  pool_inv key smin smax pre calls phs st pool ->
  pool !! i = Some (p, s) ->
  in_critical_section p = true ->
  locks st !! key = Some i.
Proof.
  intros (_ & Hlen & Hth & _) Hi Hcrit.
  assert (Hlt : (i < length calls)%nat).
  { rewrite <- Hlen. by eapply lookup_lt_Some. }
  destruct (lookup_lt_is_Some_2 calls i Hlt) as [c Hc].
  destruct (Hth i c _ Hc Hi) as [_ Hph]. simpl in Hph.
  destruct (phs i) as [|nv|nv|nv].
  - destruct Hph as (-> & _). done.
  - by destruct Hph as (_ & _ & Hlock & _).
  - by destruct Hph as (_ & Hlock & _).
  - destruct Hph as (-> & _). done.
Qed.

(** The value a caller is about to write is the committed value plus its
    step: nobody has changed the row since the caller read it. *)
Lemma pool_inv_snapshot key smin smax pre calls phs st pool i k nv p s :
  pool_inv key smin smax pre calls phs st pool ->
  pool !! i = Some (Update k nv p, s) ->
  exists c row n,
    calls !! i = Some c /\ rows st !! key = Some row /\
    choose_step (step_min row) (step_max row) (c_draw c) = inr n /\
    nv = current_value row + n.
Proof.
  intros (_ & Hlen & Hth & _) Hi.
  assert (Hlt : (i < length calls)%nat).
  { rewrite <- Hlen. by eapply lookup_lt_Some. }
  destruct (lookup_lt_is_Some_2 calls i Hlt) as [c Hc].
  destruct (Hth i c _ Hc Hi) as [_ Hph]. simpl in Hph.
  destruct (phs i) as [|nv'|nv'|nv'].
  - by destruct Hph as (Hp & _).
  - destruct Hph as (Hp & _ & _ & row & n & Hrow & Hn & ->).
    injection Hp as _ -> _. by exists c, row, n.
  - by destruct Hph as (Hp & _).
  - by destruct Hph as (Hp & _).
Qed.

Lemma render_raw_inj c c' pre nv nw :
  c_with_prefix c = false -> c_with_datetime c = false ->
  c_with_prefix c' = false -> c_with_datetime c' = false ->
  render c pre nv = render c' pre nw -> nv = nw.
Proof.
  unfold render. intros -> -> -> ->. simpl. congruence.
Qed.

Lemma append_assoc (a b c : string) : (a +:+ b) +:+ c = a +:+ b +:+ c.
Proof.
  induction a as [|x a IH]; [done|].
  change (String x ((a +:+ b) +:+ c) = String x (a +:+ b +:+ c)).
  by rewrite IH.
Qed.

(** Two returned values are equal only for equal numbers, unless both are
    formatted and the texts in front of the number differ. *)
Lemma render_decoration_inj c c' pre nv nw :
  formatted c = false \/ formatted c' = false \/
    decoration c pre = decoration c' pre ->
  render c pre nv = render c' pre nw -> nv = nw.
Proof.
  intros Hcase. unfold render.
  assert (Hraw : forall d : call,
    (negb (c_with_prefix d) && negb (c_with_datetime d))%bool
    = negb (formatted d)).
  { intros d. unfold formatted.
    by destruct (c_with_prefix d), (c_with_datetime d). }
  assert (Hparts : forall (d : call) n,
    format_id (c_with_prefix d) (c_with_datetime d) (c_format d) (c_now d)
      pre n = decoration d pre +:+ zfill 6 (str n)).
  { intros d n. rewrite format_id_parts. unfold decoration.
    by rewrite append_assoc. }
  rewrite !Hraw, !Hparts.
  destruct (formatted c) eqn:Hc, (formatted c') eqn:Hc'; simpl;
    intros Heq; try congruence.
  destruct Hcase as [?|[?|Hdec]]; try discriminate.
  injection Heq as Heq. rewrite Hdec in Heq.
  apply append_inj_l in Heq. by apply zfill_str_inj in Heq.
Qed.

(** Two concurrent callers that commit can return the same value: on a row
    with a step of zero both return the integer 10; on a row that satisfies
    [1 <= step_min <= step_max] the numbers 2 and 1000002 are both returned
    as the string "1000002", by a caller that puts the timestamp "1" in
    front and by one that puts nothing in front. *)
Lemma concurrent_allocations_collide :
  (exists st s0 s1,
     rtc step (stuck_store, spawn (caller <$> [stuck_call; stuck_call]))
       (st, [(Ret (IntId 10), s0); (Ret (IntId 10), s1)])) /\
  (well_formed wide_row /\
   exists st s0 s1,
     rtc step
       (wide_store, spawn (caller <$> [wide_call_datetime; wide_call_prefix]))
       (st, [(Ret (StrId "1000002"), s0); (Ret (StrId "1000002"), s1)])).
Proof.
  split; [|split; [unfold well_formed; simpl; lia|]].
  - pose proof (schedule_sound [0; 0; 0; 1; 1; 1]%nat stuck_store
                  (spawn (caller <$> [stuck_call; stuck_call]))) as Hsound.
    destruct (schedule [0; 0; 0; 1; 1; 1]%nat stuck_store
                (spawn (caller <$> [stuck_call; stuck_call])))
      as [[st pool]|] eqn:E; [|vm_compute in E; discriminate E].
    specialize (Hsound _ eq_refl).
    vm_compute in E. injection E as <- <-.
    eexists _, _, _. exact Hsound.
  - pose proof (schedule_sound [0; 0; 0; 1; 1; 1]%nat wide_store
                  (spawn (caller <$> [wide_call_datetime; wide_call_prefix])))
      as Hsound.
    destruct (schedule [0; 0; 0; 1; 1; 1]%nat wide_store
                (spawn (caller <$> [wide_call_datetime; wide_call_prefix])))
      as [[st pool]|] eqn:E; [|vm_compute in E; discriminate E].
    specialize (Hsound _ eq_refl).
    vm_compute in E. injection E as <- <-.
    eexists _, _, _. exact Hsound.
Qed.

(** C2, as the code has it: callers of [generate_sequence_id] on one key
    whose row satisfies [1 <= step_min <= step_max], each in a session of
    its own that the middleware commits, interleaved in any way.  Whatever
    has happened, all callers can still commit and return.  The callers
    that have returned were given pairwise different numbers; their
    returned values differ whenever one of the two is not formatted or both
    put the same text in front of the number (in particular without
    formatting, and when both format in the same way).  At most one caller
    at a time is between its locking read and the end of its transaction,
    and the value a caller is about to write is the committed
    [current_value] plus its step, so no two callers work from the same
    reading. *)
Theorem concurrent_allocations_distinct key calls st0 row0 st pool :
  on_key key calls ->
  rows st0 !! key = Some row0 ->
  locks st0 !! key = None ->
  well_formed row0 ->
  rtc step (st0, spawn (caller <$> calls)) (st, pool) ->
  (exists st' pool',
     rtc step (st, pool) (st', pool') /\
     forall i c, calls !! i = Some c ->
       exists nv s, pool' !! i = Some (Ret (render c (prefix row0) nv), s)) /\
  (exists alloc : nat -> Z,
     (forall i c v s, calls !! i = Some c -> pool !! i = Some (Ret v, s) ->
        v = render c (prefix row0) (alloc i)) /\
     (forall i j v w s t, i <> j ->
        pool !! i = Some (Ret v, s) -> pool !! j = Some (Ret w, t) ->
        alloc i <> alloc j)) /\
  (forall i j ci cj v w s t, i <> j ->
     calls !! i = Some ci -> calls !! j = Some cj ->
     c_with_prefix ci = false -> c_with_datetime ci = false ->
     c_with_prefix cj = false -> c_with_datetime cj = false ->
     pool !! i = Some (Ret v, s) -> pool !! j = Some (Ret w, t) ->
     v <> w) /\
  (forall i j ci cj v w s t, i <> j ->
     calls !! i = Some ci -> calls !! j = Some cj ->
     same_format ci cj ->
     pool !! i = Some (Ret v, s) -> pool !! j = Some (Ret w, t) ->
     v <> w) /\
  (forall i j ci cj v w s t, i <> j ->
     calls !! i = Some ci -> calls !! j = Some cj ->
     formatted ci = false \/ formatted cj = false \/
       decoration ci (prefix row0) = decoration cj (prefix row0) ->
     pool !! i = Some (Ret v, s) -> pool !! j = Some (Ret w, t) ->
     v <> w) /\
  (forall i j p q s t,
     pool !! i = Some (p, s) -> pool !! j = Some (q, t) ->
     in_critical_section p = true -> in_critical_section q = true ->
     i = j) /\
  (forall i k nv p s, pool !! i = Some (Update k nv p, s) ->
     exists c row n,
       calls !! i = Some c /\ rows st !! key = Some row /\
       choose_step (step_min row) (step_max row) (c_draw c) = inr n /\
       nv = current_value row + n).
Proof.
  intros Hkey Hrow Hlock Hwf Hrtc.
  destruct (pool_inv_rtc key (step_min row0) (step_max row0) (prefix row0)
              calls Hwf Hkey _ _ Hrtc (fun _ => Idle))
    as (phs & Hinv & Hlocked).
  { by apply (pool_inv_init key _ _ _ calls st0 row0). }
  { by left. }
  simpl in Hinv, Hlocked.
  assert (Hdistinct : forall i j v w s t, i <> j ->
    pool !! i = Some (Ret v, s) -> pool !! j = Some (Ret w, t) ->
    exists ci cj nv nw,
      calls !! i = Some ci /\ calls !! j = Some cj /\
      phs i = Done nv /\ phs j = Done nw /\
      v = render ci (prefix row0) nv /\ w = render cj (prefix row0) nw /\
      nv <> nw).
  { intros i j v w s t Hij Hi Hj.
    pose proof Hinv as (_ & Hlen & _ & Hdist).
    assert (Hli : (i < length calls)%nat).
    { rewrite <- Hlen. by eapply lookup_lt_Some. }
    assert (Hlj : (j < length calls)%nat).
    { rewrite <- Hlen. by eapply lookup_lt_Some. }
    destruct (lookup_lt_is_Some_2 calls i Hli) as [ci Hci].
    destruct (lookup_lt_is_Some_2 calls j Hlj) as [cj Hcj].
    destruct (pool_inv_returned _ _ _ _ _ _ _ _ _ _ _ _ Hinv Hci Hi)
      as (nv & Hnv & ->).
    destruct (pool_inv_returned _ _ _ _ _ _ _ _ _ _ _ _ Hinv Hcj Hj)
      as (nw & Hnw & ->).
    exists ci, cj, nv, nw. repeat split; try done.
    by apply (Hdist i j). }
  split; [|split; [|split; [|split; [|split; [|split]]]]].
  - destruct (callers_finish key (step_min row0) (step_max row0) (prefix row0)
                calls Hwf Hkey (remaining phs (length calls)) phs st pool)
      as (phs' & st' & pool' & Hrun & Hinv' & Hall); [done..|].
    exists st', pool'. split; [done|].
    intros i c Hc.
    pose proof Hinv' as (_ & Hlen & Hth & _).
    assert (Hlt : (i < length calls)%nat) by (by eapply lookup_lt_Some).
    destruct (lookup_lt_is_Some_2 pool' i) as [[p s] Hi]; [lia|].
    destruct (Hth i c (p, s) Hc Hi) as [_ Hph]. simpl in Hph.
    destruct (Hall i Hlt) as [nv Hnv]. rewrite Hnv in Hph.
    destruct Hph as (-> & _). by exists nv, s.
  - exists (fun i => allocated (phs i)). split.
    + intros i c v s Hc Hi.
      destruct (pool_inv_returned _ _ _ _ _ _ _ _ _ _ _ _ Hinv Hc Hi)
        as (nv & Hnv & ->).
      by rewrite Hnv.
    + intros i j v w s t Hij Hi Hj.
      destruct (Hdistinct i j v w s t Hij Hi Hj)
        as (ci & cj & nv & nw & _ & _ & Hnv & Hnw & _ & _ & Hne).
      by rewrite Hnv, Hnw.
  - intros i j ci cj v w s t Hij Hci Hcj Hp1 Hd1 Hp2 Hd2 Hi Hj Heq.
    destruct (Hdistinct i j v w s t Hij Hi Hj)
      as (ci' & cj' & nv & nw & Hci' & Hcj' & _ & _ & -> & -> & Hne).
    rewrite Hci in Hci'. injection Hci' as <-.
    rewrite Hcj in Hcj'. injection Hcj' as <-.
    apply Hne. by eapply (render_raw_inj ci cj).
  - intros i j ci cj v w s t Hij Hci Hcj Hsame Hi Hj Heq.
    destruct (Hdistinct i j v w s t Hij Hi Hj)
      as (ci' & cj' & nv & nw & Hci' & Hcj' & _ & _ & -> & -> & Hne).
    rewrite Hci in Hci'. injection Hci' as <-.
    rewrite Hcj in Hcj'. injection Hcj' as <-.
    apply Hne. by eapply (render_inj ci cj).
  - intros i j ci cj v w s t Hij Hci Hcj Hcase Hi Hj Heq.
    destruct (Hdistinct i j v w s t Hij Hi Hj)
      as (ci' & cj' & nv & nw & Hci' & Hcj' & _ & _ & -> & -> & Hne).
    rewrite Hci in Hci'. injection Hci' as <-.
    rewrite Hcj in Hcj'. injection Hcj' as <-.
    apply Hne. by eapply (render_decoration_inj ci cj).
  - intros i j p q s t Hi Hj Hp Hq.
    pose proof (pool_inv_critical _ _ _ _ _ _ _ _ _ _ _ Hinv Hi Hp) as H1.
    pose proof (pool_inv_critical _ _ _ _ _ _ _ _ _ _ _ Hinv Hj Hq) as H2.
    congruence.
  - intros i k nv p s Hi. by eapply pool_inv_snapshot.
Qed.

(** ** A racing initializer *)

(** Two initializers of [order_no] on an empty table: both look for the
    row and find none, the first inserts and commits, and the insert of the
    second is rejected; its coroutine ends with the [IntegrityError]. *)
Lemma init_sequence_conflict_not_swallowed :
  exists st pool sess,
    rtc step (empty_store, spawn racing_initializers) (st, pool) /\
    pool !! 1%nat = Some (Raise (IntegrityError "order_no"), sess).
Proof.
  pose proof (schedule_sound [0; 1; 0; 0; 1]%nat empty_store
                (spawn racing_initializers)) as Hsound.
  destruct (schedule [0; 1; 0; 0; 1]%nat empty_store
              (spawn racing_initializers)) as [[st pool]|] eqn:E;
    [|by vm_compute in E].
  exists st, pool, (new_session 1). split; [by apply Hsound|].
  vm_compute in E. by injection E as <- <-.
Qed.

(** C9, as the code has it: when the row appears between the presence
    check and the insert, the rejected insert raises [IntegrityError] out of
    [init_sequence]: nothing is inserted or committed, and under
    [DatabaseMiddleware] the session is rolled back and the error raised
    again.  (A row found by the presence check is the only no-op.) *)
Theorem init_sequence_conflict_raises import_draw seq_key defaults sess st
    sess' st' :
  view sess st !! key_of seq_key = None ->
  is_Some (view sess' st' !! key_of seq_key) ->
  (exists p,
     exec (init_sequence import_draw seq_key defaults) sess st
       = Some (p, sess, st) /\
     exec p sess' st'
       = Some (Raise (IntegrityError (key_of seq_key)), sess', st') /\
     run p sess' st' = Raised (IntegrityError (key_of seq_key)) sess' st') /\
  (exists p,
     exec (DatabaseMiddleware false true
             (init_sequence import_draw seq_key defaults))
       sess st = Some (p, sess, st) /\
     run p sess' st'
       = Raised (IntegrityError (key_of seq_key))
           (rollback sess' st').1 (rollback sess' st').2).
Proof.
  intros Hnone [row Hrow].
  apply select_one_false in Hnone.
  split.
  - eexists. split; [|split].
    + unfold init_sequence; simpl. rewrite Hnone. reflexivity.
    + simpl. unfold insert_row. by rewrite Hrow.
    + simpl. unfold insert_row. by rewrite Hrow.
  - eexists. split.
    + unfold DatabaseMiddleware, init_sequence; simpl. rewrite Hnone.
      reflexivity.
    + simpl. unfold insert_row. by rewrite Hrow.
Qed.

(** ** The properties on sample data *)


Lemma concurrent_allocations_distinct_witness :
  exists st s0 s1 s2,
    schedule [0; 0; 0; 1; 1; 1; 2; 2; 2]%nat sample_store
      (spawn (caller <$> [user_call 3; user_call 25; user_call 3]))
    = Some (st, [(Ret (IntId 1000004), s0); (Ret (IntId 1000010), s1);
                 (Ret (IntId 1000014), s2)]) /\
    exists alloc : nat -> Z,
     (forall i c v s,
        [user_call 3; user_call 25; user_call 3] !! i = Some c ->
        [(Ret (IntId 1000004), s0); (Ret (IntId 1000010), s1);
         (Ret (IntId 1000014), s2)] !! i = Some (Ret v, s) ->
        v = render c None (alloc i)) /\
     (forall i j v w s t, i <> j ->
        [(Ret (IntId 1000004), s0); (Ret (IntId 1000010), s1);
         (Ret (IntId 1000014), s2)] !! i = Some (Ret v, s) ->
        [(Ret (IntId 1000004), s0); (Ret (IntId 1000010), s1);
         (Ret (IntId 1000014), s2)] !! j = Some (Ret w, t) ->
        alloc i <> alloc j).
Proof.
  pose proof (schedule_sound [0; 0; 0; 1; 1; 1; 2; 2; 2]%nat sample_store
                (spawn (caller <$> [user_call 3; user_call 25; user_call 3])))
    as Hsound.
  destruct (schedule [0; 0; 0; 1; 1; 1; 2; 2; 2]%nat sample_store
              (spawn (caller <$> [user_call 3; user_call 25; user_call 3])))
    as [[st pool]|] eqn:E.
  2:{ vm_compute in E. discriminate E. }
  specialize (Hsound _ eq_refl).
  destruct (concurrent_allocations_distinct "user_id"
              [user_call 3; user_call 25; user_call 3]
              sample_store user_row st pool)
    as (_ & Halloc & _).
  - repeat constructor.
  - reflexivity.
  - reflexivity.
  - unfold well_formed; simpl; lia.
  - exact Hsound.
  - clear Hsound. vm_compute in E. injection E as <- <-.
    eexists _, _, _, _. split; [reflexivity | exact Halloc].
Defined.

Lemma generate_sequence_id_unknown_key_witness :
  run (generate_sequence_id 0 sample_clock (KeyStr "invoice_no") true true
         default_datetime_format) (new_session 0) sample_store
  = Raised (ValueError "Sequence 'invoice_no' not found")
      (new_session 0) sample_store.
Proof.
  apply (generate_sequence_id_unknown_key 0 sample_clock (KeyStr "invoice_no")
           true true default_datetime_format (new_session 0) sample_store).
  reflexivity.
Defined.

Lemma generate_sequence_id_step_witness :
  exists row n,
    view (new_session 0) sample_store !! "user_id" = Some row /\
    step_min row <= n <= step_max row.
Proof.
  destruct (run (allocate (user_call 25)) (new_session 0) sample_store)
    as [v sess' st'| |] eqn:E; [|by vm_compute in E..].
  destruct (generate_sequence_id_step (user_call 25) (new_session 0)
              sample_store v sess' st' E)
    as (row & n & Hrow & _ & _ & _ & _ & Hrange & _).
  by exists row, n.
Defined.


Lemma generate_sequence_id_raw_witness :
  run (generate_sequence_id 7 sample_clock (KeyStr "big") false false
         default_datetime_format) (new_session 0) big_store
  = Returned (IntId 1234567)
      (written "big" big_row 1234567 (new_session 0) big_store)
      (acquire (new_session 0) big_store "big").
Proof.
  destruct (generate_sequence_id_raw 7 sample_clock (KeyStr "big")
              default_datetime_format (new_session 0) big_store big_row 1)
    as (Hrun & _).
  - reflexivity.
  - reflexivity.
  - reflexivity.
  - exact Hrun.
Defined.

Lemma init_sequence_existing_noop_witness :
  exists sess' st',
    run (init_sequence 5 (KeyEnum USER_ID) init_defaults)
      (new_session 0) empty_store = Returned tt sess' st' /\
    run (init_sequence 9 (KeyEnum USER_ID) (7, 3, 4, Some "U", None)) sess' st'
      = Returned tt sess' st'.
Proof.
  destruct (run (init_sequence 5 (KeyEnum USER_ID) init_defaults)
              (new_session 0) empty_store)
    as [[] sess' st'| |] eqn:E; [|vm_compute in E; discriminate E..].
  exists sess', st'. split; [reflexivity|].
  destruct (init_sequence_existing_noop (KeyEnum USER_ID) (new_session 0)
              empty_store) as [_ Htwice].
  apply (Htwice 5 init_defaults 9 (7, 3, 4, Some "U", None) sess' st' E).
Defined.

Lemma init_sequence_known_config_witness :
  exists sess' st' row,
    run (init_sequence 5 (KeyEnum ORDER_NO) (7, 3, 4, Some "U", None))
      (new_session 0) empty_store = Returned tt sess' st' /\
    rows st' !! "order_no" = Some row /\
    row = mkRow 1 1 1 (Some "ORD") (Some "充值订单号") 0 0.
Proof.
  destruct (init_sequence_known_config 5 (KeyEnum ORDER_NO)
              (7, 3, 4, Some "U", None) (new_session 0) empty_store)
    as (sess' & st' & row & Hrun & Hrow & _ & _ & _ & Horder).
  - reflexivity.
  - reflexivity.
  - exists sess', st', row. split; [exact Hrun|]. split; [exact Hrow|].
    apply Horder. reflexivity.
Defined.

Lemma init_sequence_conflict_raises_witness :
  exists p,
    exec (init_sequence 0 (KeyEnum ORDER_NO) init_defaults)
      (new_session 1) empty_store = Some (p, new_session 1, empty_store) /\
    exec p (new_session 1) sample_store
      = Some (Raise (IntegrityError "order_no"), new_session 1, sample_store) /\
    run p (new_session 1) sample_store
      = Raised (IntegrityError "order_no") (new_session 1) sample_store.
Proof.
  destruct (init_sequence_conflict_raises 0 (KeyEnum ORDER_NO) init_defaults
              (new_session 1) empty_store (new_session 1) sample_store)
    as (Hbare & _).
  - reflexivity.
  - exists order_row. reflexivity.
  - exact Hbare.
Defined.

Lemma init_sequence_commits_caller_witness :
  exists sess' st',
    run (init_sequence 5 (KeyEnum ORDER_NO) init_defaults)
      (written "user_id" user_row 1000004 (new_session 0)
         (mkStore (<["user_id" := user_row]> ∅) ∅ 0))
      (acquire (new_session 0) (mkStore (<["user_id" := user_row]> ∅) ∅ 0)
         "user_id")
    = Returned tt sess' st' /\
    commits sess' = 1%nat /\
    current_value <$> rows st' !! "user_id" = Some 1000004.
Proof.
  destruct (init_sequence_commits_caller 5 (KeyEnum ORDER_NO) init_defaults
              (written "user_id" user_row 1000004 (new_session 0)
                 (mkStore (<["user_id" := user_row]> ∅) ∅ 0))
              (acquire (new_session 0)
                 (mkStore (<["user_id" := user_row]> ∅) ∅ 0) "user_id"))
    as (Hinsert & _ & _).
  - reflexivity.
  - destruct Hinsert as (sess' & st' & Hrun & Hcommits & _ & _ & Hkept & _).
    + reflexivity.
    + exists sess', st'. split; [exact Hrun|]. split; [exact Hcommits|].
      rewrite (Hkept "user_id" (set_value user_row 1000004 0)).
      * reflexivity.
      * discriminate.
      * reflexivity.
Defined.

(** * Further properties of [app/utils/sequence.py] *)

(** X1: an allocation changes only [current_value] and [update_time] of the
    row of its key: the step bounds, prefix, description and creation time
    of that row and every other row the session sees stay as they are. *)
Theorem generate_sequence_id_frame c sess st v sess' st' :
  run (allocate c) sess st = Returned v sess' st' ->
  (forall k, k <> key_of (c_key c) ->
     view sess' st' !! k = view sess st !! k) /\
  exists row row',
    view sess st !! key_of (c_key c) = Some row /\
    view sess' st' !! key_of (c_key c) = Some row' /\
    step_min row' = step_min row /\
    step_max row' = step_max row /\
    prefix row' = prefix row /\
    description row' = description row /\
    create_time row' = create_time row /\
    update_time row' = db_now st.
Proof.
  intros Hrun.
  destruct (run_allocate_returned _ _ _ _ _ _ Hrun)
    as (row & n & Hrow & Hav & Hn & -> & -> & ->).
  split.
  - intros k Hk. unfold view, written; simpl.
    rewrite !lookup_union, lookup_insert_ne; done.
  - exists row, (set_value row (current_value row + n) (db_now st)).
    split; [done|]. split; [apply view_written|]. done.
Qed.

Lemma allocate_empty_range c sess st row :
  view sess st !! key_of (c_key c) = Some row ->
  available sess st (key_of (c_key c)) = true ->
  step_max row < step_min row ->
  run (allocate c) sess st
  = Raised (EmptyRange (step_min row) (step_max row)) sess
      (acquire sess st (key_of (c_key c))).
Proof.
  intros Hrow Hav Hlt.
  rewrite run_allocate; simpl. rewrite Hrow, Hav.
  unfold choose_step, randint.
  destruct (step_min row =? step_max row) eqn:E1;
    [apply Z.eqb_eq in E1; lia|].
  destruct (step_min row <=? step_max row) eqn:E2;
    [apply Z.leb_le in E2; lia|]. done.
Qed.

(** X2: on a row with [step_min > step_max] the call fails with the error of
    [random.randint] on an empty range, after the locking read and before
    the [UPDATE]: the session has written nothing. *)
Theorem generate_sequence_id_empty_range c sess st row :
  view sess st !! key_of (c_key c) = Some row ->
  available sess st (key_of (c_key c)) = true ->
  step_max row < step_min row ->
  run (allocate c) sess st
  = Raised (EmptyRange (step_min row) (step_max row)) sess
      (acquire sess st (key_of (c_key c))) /\
  view sess (acquire sess st (key_of (c_key c))) = view sess st.
Proof.
  intros Hrow Hav Hlt. split; [|done].
  by apply allocate_empty_range.
Qed.

(** X3: when [step_min = step_max] no random number is drawn: whatever the
    entropy, the call returns the same value and stores
    [current_value + step_min].  The bounds are not checked, so a step of
    zero or less is applied as it is. *)
Theorem generate_sequence_id_fixed_step draw draw' now seq_key with_prefix
    with_datetime datetime_format sess st row :
  view sess st !! key_of seq_key = Some row ->
  available sess st (key_of seq_key) = true ->
  step_min row = step_max row ->
  run (generate_sequence_id draw now seq_key with_prefix with_datetime
         datetime_format) sess st
  = run (generate_sequence_id draw' now seq_key with_prefix with_datetime
           datetime_format) sess st /\
  exists v,
    run (generate_sequence_id draw now seq_key with_prefix with_datetime
           datetime_format) sess st
    = Returned v
        (written (key_of seq_key) row (current_value row + step_min row)
           sess st)
        (acquire sess st (key_of seq_key)).
Proof.
  intros Hrow Hav Heq. apply Z.eqb_eq in Heq.
  assert (Hrun : forall d,
    run (generate_sequence_id d now seq_key with_prefix with_datetime
           datetime_format) sess st
    = Returned
        (render (mkCall d now seq_key with_prefix with_datetime
                   datetime_format)
           (prefix row) (current_value row + step_min row))
        (written (key_of seq_key) row (current_value row + step_min row)
           sess st)
        (acquire sess st (key_of seq_key))).
  { intros d.
    change (generate_sequence_id d now seq_key with_prefix with_datetime
              datetime_format)
      with (allocate (mkCall d now seq_key with_prefix with_datetime
                        datetime_format)).
    rewrite run_allocate; simpl. rewrite Hrow, Hav.
    unfold choose_step. by rewrite Heq. }
  split; [by rewrite !Hrun | rewrite Hrun; eauto].
Qed.

(** X4: [with_prefix=True] on a sequence without a prefix ([None] or the
    empty string) still returns a string, the number filled with zeros, and
    not the integer. *)
Theorem generate_sequence_id_prefix_missing draw now seq_key datetime_format
    sess st row n :
  view sess st !! key_of seq_key = Some row ->
  available sess st (key_of seq_key) = true ->
  choose_step (step_min row) (step_max row) draw = inr n ->
  truthy (prefix row) = false ->
  run (generate_sequence_id draw now seq_key true false datetime_format)
    sess st
  = Returned (StrId (zfill 6 (str (current_value row + n))))
      (written (key_of seq_key) row (current_value row + n) sess st)
      (acquire sess st (key_of seq_key)).
Proof.
  intros Hrow Hav Hn Hpre.
  change (generate_sequence_id draw now seq_key true false datetime_format)
    with (allocate (mkCall draw now seq_key true false datetime_format)).
  rewrite run_allocate; simpl. rewrite Hrow, Hav, Hn.
  unfold render; simpl. rewrite format_id_parts. by rewrite Hpre.
Qed.

(** X5: two calls that format in the same way and return the same value
    have stored the same number: the formatted identifier determines the
    number behind it. *)
Theorem generate_sequence_id_value_determines_number c c' sess1 st1 sess2 st2
    v sess1' st1' sess2' st2' row1 row2 :
  run (allocate c) sess1 st1 = Returned v sess1' st1' ->
  run (allocate c') sess2 st2 = Returned v sess2' st2' ->
  same_format c c' ->
  view sess1 st1 !! key_of (c_key c) = Some row1 ->
  view sess2 st2 !! key_of (c_key c') = Some row2 ->
  prefix row1 = prefix row2 ->
  current_value <$> view sess1' st1' !! key_of (c_key c)
  = current_value <$> view sess2' st2' !! key_of (c_key c').
Proof.
  intros Hrun1 Hrun2 Hsame Hrow1 Hrow2 Hpre.
  destruct (run_allocate_returned _ _ _ _ _ _ Hrun1)
    as (r1 & n1 & Hr1 & _ & _ & Hv1 & -> & ->).
  destruct (run_allocate_returned _ _ _ _ _ _ Hrun2)
    as (r2 & n2 & Hr2 & _ & _ & Hv2 & -> & ->).
  rewrite Hrow1 in Hr1. injection Hr1 as <-.
  rewrite Hrow2 in Hr2. injection Hr2 as <-.
  rewrite !view_written. simpl. f_equal.
  rewrite Hv1, Hpre in Hv2. by apply (render_inj c c' (prefix row2)).
Qed.

(** What a call of [init_sequence] that is not kept waiting leaves behind. *)
Lemma init_sequence_returns import_draw seq_key defaults sess st :
  available sess st (key_of seq_key) = true ->
  exists sess' st',
    run (init_sequence import_draw seq_key defaults) sess st
      = Returned tt sess' st' /\
    sid sess' = sid sess /\
    db_now st' = db_now st /\
    (forall k, k <> key_of seq_key ->
       view sess' st' !! k = view sess st !! k) /\
    (forall row, view sess st !! key_of seq_key = Some row ->
       view sess' st' !! key_of seq_key = Some row) /\
    (view sess st !! key_of seq_key = None ->
       view sess' st' !! key_of seq_key
       = Some (row_of_config
                 (effective import_draw (key_of seq_key) defaults) (db_now st))) /\
    (forall k, available sess st k = true -> available sess' st' k = true).
Proof.
  intros Hav. rewrite run_init_sequence; simpl.
  destruct (view sess st !! key_of seq_key) as [row|] eqn:Hrow.
  - exists sess, st. split; [done|]. split; [done|]. split; [done|].
    split; [done|]. split; [|split; [|done]].
    + by rewrite Hrow.
    + by rewrite Hrow.
  - rewrite Hav. simpl. eexists _, _. split; [reflexivity|].
    split; [done|]. split; [done|]. split; [|split; [done|split]].
    + intros k Hk. unfold view at 1; simpl.
      rewrite (left_id_L ∅ (∪)). by rewrite lookup_insert_ne.
    + intros _. unfold view at 1; simpl.
      rewrite (left_id_L ∅ (∪)). by rewrite lookup_insert_eq.
    + intros k Hk. unfold available in *; simpl.
      destruct (release sess (<[key_of seq_key:=sid sess]> (locks st)) !! k)
        as [o|] eqn:Ho; [|done].
      unfold release in Ho. apply map_lookup_filter_Some in Ho as [Ho Hne].
      simpl in Hne. apply lookup_insert_Some in Ho as [[_ <-]|[_ Ho]]; [done|].
      rewrite Ho in Hk. apply Nat.eqb_eq in Hk. done.
Qed.

Lemma run_init_all_sequences import_draw sess st :
  run (init_all_sequences import_draw) sess st
  = match run (init_sequence import_draw (KeyEnum USER_ID) init_defaults)
            sess st with
    | Returned _ sess1 st1 =>
        run (init_sequence import_draw (KeyEnum ORDER_NO) init_defaults)
          sess1 st1
    | Raised e sess1 st1 => Raised e sess1 st1
    | Blocked sess1 st1 => Blocked sess1 st1
    end.
Proof.
  unfold init_all_sequences, SEQ_INIT_CONFIG. cbn [fold_right].
  rewrite run_bind.
  destruct (run (init_sequence import_draw (KeyEnum USER_ID) init_defaults)
              sess st) as [[] sess1 st1| |]; [|done..].
  rewrite run_bind.
  by destruct (run (init_sequence import_draw (KeyEnum ORDER_NO) init_defaults)
                 sess1 st1) as [[] ? ?| |].
Qed.

(** X6: [init_all_sequences], when no other transaction holds the two keys,
    returns with a row for every member of [SeqKey]; the rows the session
    saw before, of these or of other sequences, are as they were. *)
Theorem init_all_sequences_ensures import_draw sess st :
  available sess st "user_id" = true ->
  available sess st "order_no" = true ->
  exists sess' st',
    run (init_all_sequences import_draw) sess st = Returned tt sess' st' /\
    (forall k : SeqKey, is_Some (view sess' st' !! value k)) /\
    (forall key row, view sess st !! key = Some row ->
       view sess' st' !! key = Some row).
Proof.
  intros Hu Ho.
  destruct (init_sequence_returns import_draw (KeyEnum USER_ID) init_defaults
              sess st Hu)
    as (s1 & st1 & Hrun1 & _ & _ & Hother1 & Hkeep1 & Hnew1 & Hav1).
  destruct (init_sequence_returns import_draw (KeyEnum ORDER_NO) init_defaults
              s1 st1 (Hav1 _ Ho))
    as (s2 & st2 & Hrun2 & _ & _ & Hother2 & Hkeep2 & Hnew2 & _).
  simpl in Hother1, Hkeep1, Hnew1, Hother2, Hkeep2, Hnew2.
  assert (Huser : is_Some (view s1 st1 !! "user_id")).
  { destruct (view sess st !! "user_id") as [row|] eqn:E.
    - rewrite (Hkeep1 row eq_refl). eauto.
    - rewrite (Hnew1 eq_refl). eauto. }
  exists s2, st2. split; [|split].
  - rewrite run_init_all_sequences, Hrun1. exact Hrun2.
  - intros [|]; simpl.
    + rewrite Hother2 by done. exact Huser.
    + destruct (view s1 st1 !! "order_no") as [row|] eqn:E.
      * rewrite (Hkeep2 row eq_refl). eauto.
      * rewrite (Hnew2 eq_refl). eauto.
  - intros key row Hrow.
    assert (H1 : view s1 st1 !! key = Some row).
    { destruct (decide (key = "user_id")) as [->|Hne].
      - by apply Hkeep1.
      - by rewrite Hother1. }
    destruct (decide (key = "order_no")) as [->|Hne].
    + by apply Hkeep2.
    + by rewrite Hother2.
Qed.

(** A call of [init_sequence] that returns keeps every row the session saw. *)
Lemma init_sequence_keeps import_draw seq_key defaults sess st sess' st' :
  run (init_sequence import_draw seq_key defaults) sess st
    = Returned tt sess' st' ->
  forall key row, view sess st !! key = Some row ->
    view sess' st' !! key = Some row.
Proof.
  rewrite run_init_sequence; simpl.
  destruct (view sess st !! key_of seq_key) as [r|] eqn:Hr.
  - by intros [= <- <-].
  - destruct (available sess st (key_of seq_key)); [|done].
    intros [= <- <-] key row Hrow. unfold view at 1; simpl.
    rewrite (left_id_L ∅ (∪)).
    rewrite lookup_insert_ne; [done|]. intros <-. congruence.
Qed.

(** X7: [init_all_sequences] can be called again: once a call has returned,
    another one, whatever the base drawn for [USER_ID], changes neither the
    session nor the store. *)
Theorem init_all_sequences_idempotent import_draw import_draw' sess st
    sess' st' :
  run (init_all_sequences import_draw) sess st = Returned tt sess' st' ->
  run (init_all_sequences import_draw') sess' st' = Returned tt sess' st'.
Proof.
  rewrite run_init_all_sequences.
  destruct (run (init_sequence import_draw (KeyEnum USER_ID) init_defaults)
              sess st) as [[] s1 st1| |] eqn:Hrun1; [|done..].
  intros Hrun2.
  destruct (init_sequence_present _ _ _ _ _ _ _ Hrun1) as [ru Hru].
  destruct (init_sequence_present _ _ _ _ _ _ _ Hrun2) as [ro Hro].
  pose proof (init_sequence_keeps _ _ _ _ _ _ _ Hrun2 _ _ Hru) as Hru'.
  simpl in Hru', Hro.
  rewrite run_init_all_sequences, run_init_sequence. cbn [key_of value].
  rewrite Hru'. rewrite run_init_sequence. cbn [key_of value].
  by rewrite Hro.
Qed.


(** X9: [init_sequence] does not check the bounds it is given: for a key
    outside [SEQ_INIT_CONFIG] and [step_min > step_max] the row is inserted
    and committed as given, and the allocation that follows fails on the
    empty range. *)
Theorem init_sequence_unchecked_bounds import_draw key cv smin smax pre desc
    draw now with_prefix with_datetime datetime_format sess st :
  (forall k, key <> value k) ->
  view sess st !! key = None ->
  available sess st key = true ->
  smax < smin ->
  exists sess' st',
    run (init_sequence import_draw (KeyStr key) (cv, smin, smax, pre, desc);;;
         generate_sequence_id draw now (KeyStr key) with_prefix with_datetime
           datetime_format) sess st
    = Raised (EmptyRange smin smax) sess' st' /\
    rows st' !! key = Some (mkRow cv smin smax pre desc (db_now st) (db_now st)).
Proof.
  intros Hkey Hnone Hav Hlt.
  destruct (init_sequence_returns import_draw (KeyStr key)
              (cv, smin, smax, pre, desc) sess st Hav)
    as (s1 & st1 & Hrun1 & _ & _ & _ & _ & Hnew1 & Hav1).
  cbn [key_of] in Hnew1. specialize (Hnew1 Hnone).
  unfold effective in Hnew1. rewrite dict_get_unknown in Hnew1 by done.
  assert (Hrows : rows st1 !! key
                  = Some (mkRow cv smin smax pre desc (db_now st) (db_now st))).
  { revert Hrun1. rewrite run_init_sequence. cbn [key_of].
    rewrite Hnone, Hav. intros [= <- <-]. simpl.
    rewrite lookup_insert_eq. unfold effective.
    by rewrite dict_get_unknown. }
  exists s1, (acquire s1 st1 key). split; [|exact Hrows].
  rewrite run_bind, Hrun1.
  change (generate_sequence_id draw now (KeyStr key) with_prefix
            with_datetime datetime_format)
    with (allocate (mkCall draw now (KeyStr key) with_prefix with_datetime
                      datetime_format)).
  apply (allocate_empty_range
           (mkCall draw now (KeyStr key) with_prefix with_datetime
              datetime_format)
           s1 st1 (row_of_config (cv, smin, smax, pre, desc) (db_now st)));
    [exact Hnew1 | by apply Hav1 | exact Hlt].
Qed.

(** * Properties of [app/bot/middlewares.py] *)

Lemma run_try_except {A : Type} (p : prog A) (h : exn -> prog A) sess st :
  run (try_except p h) sess st =
  match run p sess st with
  | Returned a sess' st' => Returned a sess' st'
  | Raised e sess' st' => run (h e) sess' st'
  | Blocked sess' st' => Blocked sess' st'
  end.
Proof.
  revert sess st.
  induction p as [a|e|key k IH|key v k IH|key k IH|key c k IH|k IH|k IH];
    intros sess st; simpl; try done.
  - destruct (select_for_update key sess st) as [[r st']|]; [apply IH|done].
  - destruct (update_row key v sess st) as [[sess' st']|]; [apply IH|done].
  - destruct (insert_row key c sess st) as [[[r sess'] st']|]; [apply IH|done].
Qed.

(** How a handler ends under [DatabaseMiddleware] in polling mode. *)
Lemma run_DatabaseMiddleware {A : Type} (handler : prog A) sess st :
  run (DatabaseMiddleware false true handler) sess st =
  match run handler sess st with
  | Returned a sess' st' => Returned a (commit sess' st').1 (commit sess' st').2
  | Raised e sess' st' => Raised e (rollback sess' st').1 (rollback sess' st').2
  | Blocked sess' st' => Blocked sess' st'
  end.
Proof.
  unfold DatabaseMiddleware; simpl.
  rewrite run_try_except, run_bind.
  by destruct (run handler sess st).
Qed.

(** X10: in polling mode [DatabaseMiddleware] commits the session exactly
    when the handler returns and rolls it back exactly when the handler
    raises; the result or the exception of the handler is passed on.  With
    a session in [data], or without a session factory, the handler is
    called as it is: no commit, no rollback. *)
Theorem DatabaseMiddleware_commit_or_rollback {A : Type} (handler : prog A)
    sess st :
  run (DatabaseMiddleware false true handler) sess st =
  match run handler sess st with
  | Returned a sess' st' =>
      Returned a
        (mkSession (sid sess') ∅ (S (commits sess')) (rollbacks sess'))
        (mkStore (view sess' st') (release sess' (locks st')) (db_now st'))
  | Raised e sess' st' =>
      Raised e
        (mkSession (sid sess') ∅ (commits sess') (S (rollbacks sess')))
        (mkStore (rows st') (release sess' (locks st')) (db_now st'))
  | Blocked sess' st' => Blocked sess' st'
  end /\
  (forall session_factory,
     run (DatabaseMiddleware true session_factory handler) sess st
     = run handler sess st) /\
  run (DatabaseMiddleware false false handler) sess st = run handler sess st.
Proof.
  split; [|split].
  - rewrite run_DatabaseMiddleware. by destruct (run handler sess st).
  - done.
  - done.
Qed.

(** One request that allocates an identifier, on a row that is in order. *)
Lemma run_request c sess st row :
  view sess st !! key_of (c_key c) = Some row ->
  available sess st (key_of (c_key c)) = true ->
  well_formed row ->
  exists n sess' st',
    step_min row <= n <= step_max row /\
    run (DatabaseMiddleware false true (allocate c)) sess st
    = Returned (render c (prefix row) (current_value row + n)) sess' st' /\
    writes sess' = ∅ /\
    rows st' !! key_of (c_key c)
    = Some (set_value row (current_value row + n) (db_now st)) /\
    available sess' st' (key_of (c_key c)) = true.
Proof.
  intros Hrow Hav Hwf.
  destruct (run_allocate_well_formed c sess st row Hrow Hav Hwf)
    as (n & Hn & Hrun).
  exists n. eexists _, _. split; [done|]. split.
  { rewrite run_DatabaseMiddleware, Hrun. reflexivity. }
  split; [done|]. split.
  - simpl. apply view_written.
  - unfold available; simpl.
    rewrite release_lookup; [done|]. right. by rewrite lookup_insert_eq.
Qed.

(** X11: a request that allocates an identifier and then fails leaves no
    gap: the middleware rolls back, the committed rows are as before, and
    the next request is given the number the failed one had taken. *)
Theorem rollback_leaves_no_gap c (e : exn) sess st row n :
  writes sess = ∅ ->
  rows st !! key_of (c_key c) = Some row ->
  available sess st (key_of (c_key c)) = true ->
  choose_step (step_min row) (step_max row) (c_draw c) = inr n ->
  exists sess1 st1 sess2 st2,
    run (DatabaseMiddleware false true
           (id <-- allocate c;; (Raise e : prog seq_id))) sess st
    = Raised e sess1 st1 /\
    rows st1 = rows st /\
    writes sess1 = ∅ /\
    rollbacks sess1 = S (rollbacks sess) /\
    run (DatabaseMiddleware false true (allocate c)) sess1 st1
    = Returned (render c (prefix row) (current_value row + n)) sess2 st2 /\
    current_value <$> rows st2 !! key_of (c_key c)
    = Some (current_value row + n).
Proof.
  intros Hclean Hrow Hav Hn.
  set (key := key_of (c_key c)) in *.
  assert (Hview : view sess st !! key = Some row).
  { by rewrite view_clean. }
  assert (Hrun : run (allocate c) sess st
                 = Returned (render c (prefix row) (current_value row + n))
                     (written key row (current_value row + n) sess st)
                     (acquire sess st key)).
  { rewrite run_allocate; simpl. fold key. by rewrite Hview, Hav, Hn. }
  set (sess1 := mkSession (sid sess) ∅ (commits sess) (S (rollbacks sess))).
  set (st1 := mkStore (rows st) (release sess (<[key := sid sess]> (locks st)))
                (db_now st)).
  assert (Hview1 : view sess1 st1 !! key = Some row).
  { by rewrite view_clean. }
  assert (Hav1 : available sess1 st1 key = true).
  { unfold available; simpl.
    rewrite release_lookup; [done|]. right. by rewrite lookup_insert_eq. }
  exists sess1, st1. eexists _, _.
  split; [|split; [done|split; [done|split; [done|split]]]].
  - rewrite run_DatabaseMiddleware, run_bind, Hrun. reflexivity.
  - rewrite run_DatabaseMiddleware, run_allocate; simpl. fold key.
    rewrite Hview1, Hav1, Hn. reflexivity.
  - simpl. by rewrite view_written.
Qed.

Lemma requests_run key calls : forall sess st row,
  on_key key calls ->
  view sess st !! key = Some row ->
  available sess st key = true ->
  well_formed row ->
  exists steps sess' st',
    length steps = length calls /\
    Forall (fun n => step_min row <= n <= step_max row) steps /\
    run (requests calls) sess st =
      Returned (zip_with (fun c nv => render c (prefix row) nv) calls
                  (running (current_value row) steps)) sess' st' /\
    current_value <$> view sess' st' !! key
      = Some (List.last (running (current_value row) steps) (current_value row)) /\
    (calls <> [] -> writes sess' = ∅).
Proof.
  induction calls as [|c calls IH]; intros sess st row Hkey Hrow Hav Hwf.
  - exists [], sess, st. simpl. by rewrite Hrow.
  - inversion Hkey as [|? ? Hc Hcs]; subst.
    destruct (run_request c sess st row Hrow Hav Hwf)
      as (n & sess1 & st1 & Hn & Hrun & Hclean & Hrows & Hav1).
    set (key := key_of (c_key c)) in *.
    set (nv := current_value row + n) in *.
    assert (Hview1 : view sess1 st1 !! key = Some (set_value row nv (db_now st))).
    { by rewrite view_clean. }
    destruct (IH sess1 st1 (set_value row nv (db_now st)) Hcs Hview1 Hav1 Hwf)
      as (steps & sess' & st' & Hlen & Hsteps & Hrest & Hlast & Hclean').
    exists (n :: steps), sess', st'.
    split; [simpl; by f_equal|]. split; [by constructor|]. split; [|split].
    + cbn [requests]. rewrite run_bind, Hrun, run_bind, Hrest. done.
    + rewrite Hlast. cbn [running set_value current_value]. fold nv.
      symmetry. f_equal. apply last_cons.
    + intros _. destruct calls as [|c' calls'].
      * destruct steps; [|done]. simpl in Hrest.
        injection Hrest as <- <-. done.
      * by apply Hclean'.
Qed.

(** X12: requests that allocate one identifier each, one transaction after
    the other, on a row with [1 <= step_min <= step_max]: each is committed
    before the next starts, the numbers are strictly increasing in the order
    of the commits, and the committed counter is the last number given. *)
Theorem requests_strictly_increasing key calls sess st row :
  on_key key calls ->
  view sess st !! key = Some row ->
  available sess st key = true ->
  well_formed row ->
  calls <> [] ->
  exists steps sess' st',
    length steps = length calls /\
    run (requests calls) sess st =
      Returned (zip_with (fun c nv => render c (prefix row) nv) calls
                  (running (current_value row) steps)) sess' st' /\
    StronglySorted Z.lt (current_value row :: running (current_value row) steps) /\
    writes sess' = ∅ /\
    current_value <$> rows st' !! key
      = Some (List.last (running (current_value row) steps) (current_value row)).
Proof.
  intros Hkey Hrow Hav Hwf Hne.
  destruct (requests_run key calls sess st row Hkey Hrow Hav Hwf)
    as (steps & sess' & st' & Hlen & Hsteps & Hrun & Hlast & Hclean).
  exists steps, sess', st'. split; [done|]. split; [done|]. split; [|split].
  - apply running_sorted.
    eapply Forall_impl; [exact Hsteps|]. destruct Hwf. simpl. lia.
  - by apply Hclean.
  - rewrite <- Hlast, view_clean; [done|]. by apply Hclean.
Qed.

(** ** Throttling *)

Lemma ThrottlingMiddleware_pass {A : Type} (none : A) now (handler : chain A)
    event self user_id :
  user_id_of event = Some user_id ->
  too_soon self now user_id = false ->
  ThrottlingMiddleware none now handler event self
  = handler (recorded self user_id now).
Proof.
  intros Hu Hs. unfold ThrottlingMiddleware. by rewrite Hu, Hs.
Qed.

Lemma ThrottlingMiddleware_stop {A : Type} (none : A) now (handler : chain A)
    event self user_id :
  user_id_of event = Some user_id ->
  too_soon self now user_id = true ->
  ThrottlingMiddleware none now handler event self
  = (self, [throttled_record user_id], Ret none).
Proof.
  intros Hu Hs. unfold ThrottlingMiddleware. by rewrite Hu, Hs.
Qed.

Lemma too_soon_recorded self user_id t t' :
  too_soon (recorded self user_id t) t' user_id
  = PrimFloat.ltb (PrimFloat.sub t' t) (rate_limit self).
Proof. unfold too_soon, recorded; simpl. by rewrite lookup_insert_eq. Qed.

(** X13: the window of a user starts at the last event that passed.  After
    an event of a user has passed at [t0], an event of the same user at
    [t1] with [t1 - t0 < rate_limit] gets [None] without the handler being
    called and without a change of the table; so a later event at [t2] is
    judged against [t0], not against [t1], and passes as soon as
    [t2 - t0 < rate_limit] fails. *)
Theorem throttling_window {A : Type} (none : A) (h0 : prog A) event self
    user_id t0 :
  user_id_of event = Some user_id ->
  too_soon self t0 user_id = false ->
  ThrottlingMiddleware none t0 (final h0) event self
  = (recorded self user_id t0, [], h0) /\
  (forall t1 (h1 : prog A),
     PrimFloat.ltb (PrimFloat.sub t1 t0) (rate_limit self) = true ->
     ThrottlingMiddleware none t1 (final h1) event (recorded self user_id t0)
     = (recorded self user_id t0, [throttled_record user_id], Ret none)) /\
  (forall t2 (h2 : prog A),
     PrimFloat.ltb (PrimFloat.sub t2 t0) (rate_limit self) = false ->
     ThrottlingMiddleware none t2 (final h2) event (recorded self user_id t0)
     = (recorded (recorded self user_id t0) user_id t2, [], h2)).
Proof.
  intros Hu Hs. split; [|split].
  - by rewrite (ThrottlingMiddleware_pass none t0 _ event self user_id).
  - intros t1 h1 Ht1.
    apply ThrottlingMiddleware_stop; [done|]. by rewrite too_soon_recorded.
  - intros t2 h2 Ht2.
    rewrite (ThrottlingMiddleware_pass none t2 _ event _ user_id); [done..|].
    by rewrite too_soon_recorded.
Qed.

(** X14: users are throttled independently: whatever happens to an event,
    the rate limit and the recorded time of every user other than its
    sender are as before, and an event without a sender (or with the
    sender's id 0) changes nothing at all. *)
Theorem throttling_other_users {A : Type} (none : A) now (handler : prog A)
    event self self' logs p :
  ThrottlingMiddleware none now (final handler) event self = (self', logs, p) ->
  rate_limit self' = rate_limit self /\
  (forall user_id, user_id_of event <> Some user_id ->
     _user_last_time self' !! user_id = _user_last_time self !! user_id /\
     forall t, too_soon self' t user_id = too_soon self t user_id) /\
  (user_id_of event = None -> self' = self /\ logs = [] /\ p = handler).
Proof.
  unfold ThrottlingMiddleware, final.
  destruct (user_id_of event) as [uid|] eqn:Hu.
  - destruct (too_soon self now uid).
    + intros [= <- <- <-]. split; [done|]. split; [|done]. done.
    + intros [= <- <- <-]. split; [done|]. split; [|done].
      intros v Hv.
      assert (Hlook : <[uid:=now]> (_user_last_time self) !! v
                      = _user_last_time self !! v).
      { apply lookup_insert_ne. congruence. }
      split; [done|]. intros t. unfold too_soon; simpl. by rewrite Hlook.
  - intros [= <- <- <-]. done.
Qed.

(** ** The chain built by [setup_middlewares] *)

Lemma user_id_of_sender event user :
  update_user event = Some user -> User.id user <> 0 ->
  user_id_of event = Some (User.id user).
Proof.
  intros Hu Hid. unfold user_id_of. rewrite Hu. simpl.
  destruct (User.id user =? 0) eqn:E; [|done].
  apply Z.eqb_eq in E. done.
Qed.

(** X15: [setup_middlewares] registers the logging, throttling and database
    middlewares in this order, with a fresh throttling table and a limit of
    0.5 seconds.  An update of a sender that comes too soon is logged twice
    ("Update from user", "Throttled user") and ends there with [None]: the
    database middleware and the handler are not reached, so no session is
    opened.  An update that passes is logged once, its time is recorded,
    and the handler runs under [DatabaseMiddleware]; without a session and
    without a session factory "Database not initialized" is logged as
    well. *)
Theorem setup_middlewares_chain {A : Type} (none : A) (handler : prog A)
    event user now dp0 self data_db session_factory :
  update_middlewares dp0 = [] ->
  update_user event = Some user ->
  User.id user <> 0 ->
  let dp := mkDispatcher (update_middlewares (setup_middlewares dp0)) self in
  let ctx := mkContext now data_db session_factory in
  update_middlewares (setup_middlewares dp0) = [Logging; Throttle; Database] /\
  throttling (setup_middlewares dp0) = mkThrottling 0.5 ∅ /\
  (too_soon self now (User.id user) = true ->
     feed_update none ctx dp handler event
     = (dp, [update_record user; throttled_record (User.id user)], Ret none)) /\
  (too_soon self now (User.id user) = false ->
     feed_update none ctx dp handler event
     = (mkDispatcher (update_middlewares dp) (recorded self (User.id user) now),
        update_record user ::
          (if (negb data_db && negb session_factory)%bool
           then [(ERROR, "Database not initialized")] else []),
        DatabaseMiddleware data_db session_factory handler)).
Proof.
  intros Hdp0 Hu Hid dp ctx.
  pose proof (user_id_of_sender event user Hu Hid) as Huid.
  assert (Hms : update_middlewares (setup_middlewares dp0)
                = [Logging; Throttle; Database]).
  { unfold setup_middlewares; simpl. by rewrite Hdp0. }
  split; [done|]. split; [done|].
  unfold feed_update, dp. cbn [update_middlewares throttling].
  rewrite Hms. cbn [wrap_middlewares ctx ctx_now ctx_data_db ctx_session_factory].
  unfold LoggingMiddleware. rewrite Hu.
  split.
  - intros Hsoon.
    rewrite (ThrottlingMiddleware_stop none now _ event self (User.id user))
      by done.
    reflexivity.
  - intros Hpass.
    rewrite (ThrottlingMiddleware_pass none now _ event self (User.id user))
      by done.
    unfold DatabaseMiddleware_call, final. simpl.
    by rewrite app_nil_r.
Qed.

(** X16: an update through the chain of [setup_middlewares], in polling
    mode, with a handler that allocates an identifier.  When the sender is
    throttled the coroutine returns [None] and leaves session and store
    untouched: no number is used up.  When the update passes, the
    identifier is returned and the new counter is committed. *)
Theorem update_through_chain c event user now dp0 self sess st row :
  update_middlewares dp0 = [] ->
  update_user event = Some user ->
  User.id user <> 0 ->
  view sess st !! key_of (c_key c) = Some row ->
  available sess st (key_of (c_key c)) = true ->
  well_formed row ->
  let dp := mkDispatcher (update_middlewares (setup_middlewares dp0)) self in
  let handler := id <-- allocate c;; Ret (Some id) in
  let result := feed_update None (mkContext now false true) dp handler event in
  (too_soon self now (User.id user) = true ->
     result.1.1 = dp /\
     run result.2 sess st = Returned None sess st) /\
  (too_soon self now (User.id user) = false ->
     throttling result.1.1 = recorded self (User.id user) now /\
     exists n sess' st',
       step_min row <= n <= step_max row /\
       run result.2 sess st
       = Returned (Some (render c (prefix row) (current_value row + n)))
           sess' st' /\
       rows st' !! key_of (c_key c)
       = Some (set_value row (current_value row + n) (db_now st))).
Proof.
  intros Hdp0 Hu Hid Hrow Hav Hwf dp handler result.
  pose proof (user_id_of_sender event user Hu Hid) as Huid.
  assert (Hms : update_middlewares (setup_middlewares dp0)
                = [Logging; Throttle; Database]).
  { unfold setup_middlewares; simpl. by rewrite Hdp0. }
  assert (Hresult : result =
    let '(self', logs, p) :=
      LoggingMiddleware
        (ThrottlingMiddleware None now
           (DatabaseMiddleware_call false true (final handler)) event)
        event self in
    (mkDispatcher (update_middlewares dp) self', logs, p)).
  { unfold result, feed_update, dp. cbn [update_middlewares throttling].
    rewrite Hms. reflexivity. }
  unfold LoggingMiddleware in Hresult. rewrite Hu in Hresult.
  split.
  - intros Hsoon.
    rewrite (ThrottlingMiddleware_stop None now _ event self (User.id user))
      in Hresult by done.
    rewrite Hresult. split; reflexivity.
  - intros Hpass.
    rewrite (ThrottlingMiddleware_pass None now _ event self (User.id user))
      in Hresult by done.
    rewrite Hresult. split; [reflexivity|].
    destruct (run_allocate_well_formed c sess st row Hrow Hav Hwf)
      as (n & Hn & Hrun).
    exists n. eexists _, _. split; [exact Hn|]. split.
    + unfold DatabaseMiddleware_call, final. cbn [fst snd].
      rewrite run_DatabaseMiddleware. unfold handler.
      rewrite run_bind, Hrun. reflexivity.
    + simpl. apply view_written.
Qed.

(** ** The further properties on sample data *)

Lemma generate_sequence_id_frame_witness :
  view (written "user_id" user_row 1000006 (new_session 0) sample_store)
       (acquire (new_session 0) sample_store "user_id") !! "order_no"
  = Some order_row.
Proof.
  destruct (run (allocate (user_call 25)) (new_session 0) sample_store)
    as [v sess' st'| |] eqn:E; [|vm_compute in E; discriminate E..].
  destruct (generate_sequence_id_frame (user_call 25) (new_session 0)
              sample_store v sess' st' E) as [Hother _].
  assert (Hs : sess' = written "user_id" user_row 1000006 (new_session 0)
                         sample_store /\
               st' = acquire (new_session 0) sample_store "user_id").
  { vm_compute in E. injection E as _ <- <-. split; reflexivity. }
  destruct Hs as [-> ->].
  rewrite (Hother "order_no"); [reflexivity | discriminate].
Defined.

Lemma generate_sequence_id_empty_range_witness :
  run (allocate (mkCall 3 sample_clock (KeyStr "broken") false false
                   default_datetime_format)) (new_session 0) broken_store
  = Raised (EmptyRange 5 1) (new_session 0)
      (acquire (new_session 0) broken_store "broken").
Proof.
  destruct (generate_sequence_id_empty_range
              (mkCall 3 sample_clock (KeyStr "broken") false false
                 default_datetime_format)
              (new_session 0) broken_store broken_row) as [Hrun _].
  - reflexivity.
  - reflexivity.
  - simpl. lia.
  - exact Hrun.
Defined.

Lemma generate_sequence_id_fixed_step_witness :
  run (generate_sequence_id 3 sample_clock (KeyEnum ORDER_NO) true true
         default_datetime_format) (new_session 0) sample_store
  = run (generate_sequence_id 77 sample_clock (KeyEnum ORDER_NO) true true
           default_datetime_format) (new_session 0) sample_store.
Proof.
  destruct (generate_sequence_id_fixed_step 3 77 sample_clock (KeyEnum ORDER_NO)
              true true default_datetime_format (new_session 0) sample_store
              order_row) as [Hsame _].
  - reflexivity.
  - reflexivity.
  - reflexivity.
  - exact Hsame.
Defined.

Lemma generate_sequence_id_prefix_missing_witness :
  run (generate_sequence_id 3 sample_clock (KeyEnum USER_ID) true false
         default_datetime_format) (new_session 0) sample_store
  = Returned (StrId "1000004")
      (written "user_id" user_row 1000004 (new_session 0) sample_store)
      (acquire (new_session 0) sample_store "user_id").
Proof.
  apply (generate_sequence_id_prefix_missing 3 sample_clock (KeyEnum USER_ID)
           default_datetime_format (new_session 0) sample_store user_row 4).
  - reflexivity.
  - reflexivity.
  - reflexivity.
  - reflexivity.
Defined.

Lemma generate_sequence_id_value_determines_number_witness :
  current_value <$>
    view (written "order_no" order_row 1 (new_session 0) sample_store)
         (acquire (new_session 0) sample_store "order_no") !! "order_no"
  = current_value <$>
    view (written "order_no" order_row 1 (new_session 1) sample_store)
         (acquire (new_session 1) sample_store "order_no") !! "order_no".
Proof.
  apply (generate_sequence_id_value_determines_number order_call order_call
           (new_session 0) sample_store (new_session 1) sample_store
           (StrId "ORD2312231530000001") _ _ _ _ order_row order_row).
  - reflexivity.
  - reflexivity.
  - repeat split.
  - reflexivity.
  - reflexivity.
  - reflexivity.
Defined.

Lemma init_all_sequences_ensures_witness :
  exists sess' st',
    run (init_all_sequences 5) (new_session 0) big_store
      = Returned tt sess' st' /\
    is_Some (view sess' st' !! "user_id") /\
    is_Some (view sess' st' !! "order_no") /\
    view sess' st' !! "big" = Some big_row.
Proof.
  destruct (init_all_sequences_ensures 5 (new_session 0) big_store)
    as (sess' & st' & Hrun & Hall & Hkeep).
  - reflexivity.
  - reflexivity.
  - exists sess', st'. split; [exact Hrun|].
    split; [exact (Hall USER_ID)|]. split; [exact (Hall ORDER_NO)|].
    apply Hkeep. reflexivity.
Defined.

Lemma init_all_sequences_idempotent_witness :
  exists sess' st',
    run (init_all_sequences 5) (new_session 0) empty_store
      = Returned tt sess' st' /\
    run (init_all_sequences 900) sess' st' = Returned tt sess' st'.
Proof.
  destruct (run (init_all_sequences 5) (new_session 0) empty_store)
    as [[] sess' st'| |] eqn:E; [|vm_compute in E; discriminate E..].
  exists sess', st'. split; [reflexivity|].
  apply (init_all_sequences_idempotent 5 900 (new_session 0) empty_store
           sess' st' E).
Defined.


Lemma init_sequence_unchecked_bounds_witness :
  exists sess' st',
    run (init_sequence 5 (KeyStr "invoice_no") (100, 9, 2, None, None);;;
         generate_sequence_id 0 sample_clock (KeyStr "invoice_no") false false
           default_datetime_format) (new_session 0) empty_store
    = Raised (EmptyRange 9 2) sess' st' /\
    rows st' !! "invoice_no" = Some (mkRow 100 9 2 None None 0 0).
Proof.
  apply (init_sequence_unchecked_bounds 5 "invoice_no" 100 9 2 None None 0
           sample_clock false false default_datetime_format (new_session 0)
           empty_store).
  - intros [|]; discriminate.
  - reflexivity.
  - reflexivity.
  - lia.
Defined.

Lemma rollback_leaves_no_gap_witness :
  exists sess1 st1 sess2 st2,
    run (DatabaseMiddleware false true
           (id <-- allocate (user_call 3);;
            (Raise (ValueError "boom") : prog seq_id)))
      (new_session 0) sample_store
    = Raised (ValueError "boom") sess1 st1 /\
    rows st1 = rows sample_store /\
    run (DatabaseMiddleware false true (allocate (user_call 3))) sess1 st1
    = Returned (IntId 1000004) sess2 st2 /\
    current_value <$> rows st2 !! "user_id" = Some 1000004.
Proof.
  destruct (rollback_leaves_no_gap (user_call 3) (ValueError "boom")
              (new_session 0) sample_store user_row 4)
    as (sess1 & st1 & sess2 & st2 & Hfail & Hrows & _ & _ & Hnext & Hvalue).
  - reflexivity.
  - reflexivity.
  - reflexivity.
  - reflexivity.
  - exists sess1, st1, sess2, st2.
    split; [exact Hfail|]. split; [exact Hrows|].
    split; [exact Hnext | exact Hvalue].
Defined.

Lemma requests_strictly_increasing_witness :
  exists steps sess' st',
    run (requests [user_call 3; user_call 25; user_call 19])
      (new_session 0) sample_store
    = Returned (zip_with (fun c nv => render c None nv)
                  [user_call 3; user_call 25; user_call 19]
                  (running 1000000 steps)) sess' st' /\
    StronglySorted Z.lt (1000000 :: running 1000000 steps).
Proof.
  destruct (requests_strictly_increasing "user_id"
              [user_call 3; user_call 25; user_call 19]
              (new_session 0) sample_store user_row)
    as (steps & sess' & st' & _ & Hrun & Hsorted & _).
  - repeat constructor.
  - reflexivity.
  - reflexivity.
  - unfold well_formed; simpl; lia.
  - discriminate.
  - exists steps, sess', st'. split; [exact Hrun | exact Hsorted].
Defined.

Lemma throttling_window_witness :
  ThrottlingMiddleware (IntId 0) 1700000000.25
    (final (allocate (user_call 3))) sample_update
    (recorded (ThrottlingMiddleware_init 0.5) 42 1700000000)
  = (recorded (ThrottlingMiddleware_init 0.5) 42 1700000000,
     [throttled_record 42], Ret (IntId 0)).
Proof.
  destruct (throttling_window (IntId 0) (allocate (user_call 3)) sample_update
              (ThrottlingMiddleware_init 0.5) 42 1700000000)
    as (_ & Hstop & _).
  - reflexivity.
  - reflexivity.
  - apply (Hstop 1700000000.25%float (allocate (user_call 3))). reflexivity.
Defined.

Lemma throttling_other_users_witness :
  _user_last_time (recorded (ThrottlingMiddleware_init 0.5) 42 1700000000)
    !! 7 = None.
Proof.
  destruct (throttling_other_users (IntId 0) 1700000000
              (allocate (user_call 3)) sample_update
              (ThrottlingMiddleware_init 0.5)
              (recorded (ThrottlingMiddleware_init 0.5) 42 1700000000)
              [] (allocate (user_call 3)))
    as (_ & Hother & _).
  - reflexivity.
  - destruct (Hother 7) as [Hlook _]; [discriminate|].
    rewrite Hlook. reflexivity.
Defined.

Lemma setup_middlewares_chain_witness :
  feed_update (IntId 0) (mkContext 1700000000 false true) sample_dispatcher
    (allocate (user_call 3)) sample_update
  = (mkDispatcher [Logging; Throttle; Database]
       (recorded (ThrottlingMiddleware_init 0.5) 42 1700000000),
     [update_record sample_user],
     DatabaseMiddleware false true (allocate (user_call 3))).
Proof.
  destruct (setup_middlewares_chain (IntId 0) (allocate (user_call 3))
              sample_update sample_user 1700000000
              (mkDispatcher [] (ThrottlingMiddleware_init 0))
              (ThrottlingMiddleware_init 0.5) false true)
    as (_ & _ & _ & Hpass).
  - reflexivity.
  - reflexivity.
  - discriminate.
  - apply Hpass. reflexivity.
Defined.

Lemma update_through_chain_witness :
  run (feed_update None (mkContext 1700000000.25 false true)
         (mkDispatcher [Logging; Throttle; Database]
            (recorded (ThrottlingMiddleware_init 0.5) 42 1700000000))
         (id <-- allocate (user_call 3);; Ret (Some id)) sample_update).2
    (new_session 0) sample_store
  = Returned None (new_session 0) sample_store.
Proof.
  destruct (update_through_chain (user_call 3) sample_update sample_user
              1700000000.25 (mkDispatcher [] (ThrottlingMiddleware_init 0))
              (recorded (ThrottlingMiddleware_init 0.5) 42 1700000000)
              (new_session 0) sample_store user_row)
    as [Hsoon _].
  - reflexivity.
  - reflexivity.
  - discriminate.
  - reflexivity.
  - reflexivity.
  - unfold well_formed; simpl; lia.
  - destruct Hsoon as [_ Hrun]; [reflexivity | exact Hrun].
Defined.
